(** * Urban air quality API: enrichment and validation pipeline

    A shallow embedding of the controller and services of the repository
    (city normalisation, Wikipedia description cascade, token cache,
    pollution aggregation, result sorting) and the properties its
    specification states about them.

    Conventions of the embedding
    - A JavaScript string is a [string]; the text primitives below are the
      ASCII fragment of the ECMAScript ones: case mapping acts on the
      letters a-z / A-Z, white space is TAB, LF, VT, FF, CR and SPACE, and
      every other character is left alone.
    - A Number read by [parseFloat] is its exact decimal value (a rational);
      rounding to a binary64 is not modelled.
    - A value of a payload is kept as what the code observes of it; the
      conversion to a string, which [parseFloat], [parseInt] and template
      literals start with, throws for an object without a primitive value.
    - Effects (the shared node-cache instance, the clock, the HTTP calls)
      are threaded through a state-and-exception monad over a [World]. *)

From Stdlib Require Import ZArith QArith Ascii String List Bool Lia Permutation Sorted DecimalString.
From stdpp Require Import base option list gmap strings.

Local Open Scope Z_scope.

(** ** Characters and text primitives *)

Definition code (c : ascii) : N := N_of_ascii c.

Definition is_space (c : ascii) : bool :=
  match code c with
  | 9 | 10 | 11 | 12 | 13 | 32 => true
  | _ => false
  end%N.

(** Line terminators: the characters the regular-expression dot refuses. *)
Definition is_line_terminator (c : ascii) : bool :=
  match code c with
  | 10 | 13 => true
  | _ => false
  end%N.

Definition is_digit (c : ascii) : bool :=
  (48 <=? code c)%N && (code c <=? 57)%N.

Definition is_ascii (c : ascii) : bool := (code c <? 128)%N.

Definition toUpperChar (c : ascii) : ascii :=
  if (97 <=? code c)%N && (code c <=? 122)%N
  then ascii_of_N (code c - 32) else c.

Definition toLowerChar (c : ascii) : ascii :=
  if (65 <=? code c)%N && (code c <=? 90)%N
  then ascii_of_N (code c + 32) else c.

Definition chars : Type := list ascii.

Definition ascii_eqb (a b : ascii) : bool := Ascii.eqb a b.

Fixpoint skip_spaces (l : chars) : chars :=
  match l with
  | c :: r => if is_space c then skip_spaces r else l
  | [] => []
  end.

Fixpoint trim_end (l : chars) : chars :=
  match l with
  | [] => []
  | c :: r =>
      match trim_end r with
      | [] => if is_space c then [] else [c]
      | r' => c :: r'
      end
  end.

(** [String.prototype.trim] *)
Definition trim_chars (l : chars) : chars := trim_end (skip_spaces l).

(** [s.startsWith(p)] on character lists. *)
Fixpoint starts_with (p l : chars) : bool :=
  match p, l with
  | [], _ => true
  | a :: p', b :: l' => ascii_eqb a b && starts_with p' l'
  | _ :: _, [] => false
  end.

(** [hay.includes(needle)] *)
Fixpoint includes_chars (needle hay : chars) : bool :=
  starts_with needle hay ||
  match hay with
  | [] => false
  | _ :: r => includes_chars needle r
  end.

(** [s.split(' ')]: the pieces between single separators, empty pieces
    kept. *)
Fixpoint split_chars (sep : ascii) (l : chars) : list chars :=
  match l with
  | [] => [[]]
  | c :: r =>
      if ascii_eqb c sep then [] :: split_chars sep r
      else match split_chars sep r with
           | w :: ws => (c :: w) :: ws
           | [] => [[c]]
           end
  end.

(** [words.join(' ')] *)
Fixpoint join_chars (sep : ascii) (ws : list chars) : chars :=
  match ws with
  | [] => []
  | [w] => w
  | w :: rest => w ++ sep :: join_chars sep rest
  end.

(** The callback of the [map] in normalizeCityData:
    [word.charAt(0).toUpperCase() + word.slice(1).toLowerCase()]. *)
Definition capitalize (w : chars) : chars :=
  match w with
  | [] => []
  | c :: r => toUpperChar c :: map toLowerChar r
  end.

(** *** The two regular expressions of normalizeCityData *)

(** Index just after the last ")" of [l] that has at least [need]
    characters in front of it, counting from the start of [l]. *)
Fixpoint last_close (need : nat) (l : chars) : option nat :=
  match l with
  | [] => None
  | c :: r =>
      match last_close (pred need) r with
      | Some n => Some (S n)
      | None =>
          if ascii_eqb c ")" && Nat.eqb need 0 then Some 1%nat else None
      end
  end.

(** The part of [l] in front of its first line terminator. *)
Fixpoint line_of (l : chars) : chars :=
  match l with
  | [] => []
  | c :: r => if is_line_terminator c then [] else c :: line_of r
  end.

(** Length of the match of [/\s*\(.+\)\s*/] anchored at the start of [l],
    if there is one: the leading white space, a "(", the longest run of
    non-terminator characters that still leaves a ")" (greedy [.+]), that
    ")" and the white space after it. *)
Definition paren_match (l : chars) : option nat :=
  let lead := (length l - length (skip_spaces l))%nat in
  match skip_spaces l with
  | "(" %char :: r =>
      match last_close 1 (line_of r) with
      | Some n =>
          let rest := drop n r in
          Some (lead + 1 + n + (length rest - length (skip_spaces rest)))%nat
      | None => None
      end
  | _ => None
  end.

(** [l.replace(/\s*\(.+\)\s*/g, '')]: scan left to right; [skip] counts the
    characters of the current match still to be dropped. *)
Fixpoint strip_parens_from (skip : nat) (l : chars) : chars :=
  match l with
  | [] => []
  | c :: r =>
      match skip with
      | S k => strip_parens_from k r
      | O =>
          match paren_match l with
          | Some (S k) => strip_parens_from k r
          | _ => c :: strip_parens_from 0 r
          end
      end
  end.

Definition strip_parens (l : chars) : chars := strip_parens_from 0 l.

(** [l.replace(/\s+/g, ' ')]: [in_run] tells that the previous character
    was white space already replaced. *)
Fixpoint collapse_from (in_run : bool) (l : chars) : chars :=
  match l with
  | [] => []
  | c :: r =>
      if is_space c
      then if in_run then collapse_from true r
           else " "%char :: collapse_from true r
      else c :: collapse_from false r
  end.

Definition collapse_spaces (l : chars) : chars := collapse_from false l.

(** [/^[0-9]+$/.test(l)] *)
Definition all_digits (l : chars) : bool :=
  match l with
  | [] => false
  | _ => forallb is_digit l
  end.

(** *** The same primitives on strings *)

Definition to_chars (s : string) : chars := list_ascii_of_string s.
Definition of_chars (l : chars) : string := string_of_list_ascii l.

Definition trim (s : string) : string := of_chars (trim_chars (to_chars s)).
Definition toLowerCase (s : string) : string :=
  of_chars (map toLowerChar (to_chars s)).
Definition toUpperCase (s : string) : string :=
  of_chars (map toUpperChar (to_chars s)).
Definition includes (hay needle : string) : bool :=
  includes_chars (to_chars needle) (to_chars hay).
Definition str_length (s : string) : nat := String.length s.

(** ** Numbers and JSON values *)

(** A JavaScript Number, by its exact value. *)
Inductive Number : Type :=
| NaN
| NegInfinity
| PosInfinity
| Finite (q : Q).

Definition isNaN (n : Number) : bool :=
  match n with NaN => true | _ => false end.

(** [n < 0] *)
Definition is_negative (n : Number) : bool :=
  match n with
  | NegInfinity => true
  | Finite q => negb (Qle_bool 0 q)
  | _ => false
  end.

Definition digit_value (c : ascii) : Z := Z.of_N (code c) - 48.

Definition digits_value (ds : chars) : Z :=
  fold_left (fun acc c => 10 * acc + digit_value c) ds 0.

(** The longest prefix of digits, and what follows it. *)
Fixpoint span_digits (l : chars) : chars * chars :=
  match l with
  | c :: r =>
      if is_digit c
      then let '(ds, rest) := span_digits r in (c :: ds, rest)
      else ([], l)
  | [] => ([], [])
  end.

(** An optional sign: [true] for "-". *)
Definition read_sign (l : chars) : bool * chars :=
  match l with
  | "-"%char :: r => (true, r)
  | "+"%char :: r => (false, r)
  | _ => (false, l)
  end.

(** The exponent part: counted only when "e" or "E" is followed by an
    optionally signed, non-empty run of digits. *)
Definition read_exponent (l : chars) : Z :=
  match l with
  | c :: r =>
      if ascii_eqb c "e" || ascii_eqb c "E"
      then let '(neg, r1) := read_sign r in
           let '(ds, _) := span_digits r1 in
           match ds with
           | [] => 0
           | _ => if neg then - digits_value ds else digits_value ds
           end
      else 0
  | [] => 0
  end.

(** [parseFloat] of a string: leading white space is skipped and the
    longest prefix that is a decimal literal is read. *)
Definition parseFloat_chars (l : chars) : Number :=
  let '(neg, l1) := read_sign (skip_spaces l) in
  if starts_with (to_chars "Infinity") l1
  then if neg then NegInfinity else PosInfinity
  else
    let '(ip, r1) := span_digits l1 in
    let '(fp, r2) :=
      match r1 with
      | "."%char :: r => span_digits r
      | _ => ([], r1)
      end in
    match ip ++ fp with
    | [] => NaN
    | ds =>
        let m := digits_value ds in
        let e := read_exponent r2 - Z.of_nat (length fp) in
        Finite (Qred (inject_Z (if neg then - m else m) * Qpower (10 # 1) e))
    end.

(** [parseInt(s, 10)] of a string; [None] stands for NaN. *)
Definition parseInt_chars (l : chars) : option Z :=
  let '(neg, l1) := read_sign (skip_spaces l) in
  let '(ds, _) := span_digits l1 in
  match ds with
  | [] => None
  | _ => Some (if neg then - digits_value ds else digits_value ds)
  end.

(** ** Exceptions *)

Inductive Exn : Type :=
| TypeError
| AxiosError (status : option Z)   (* [error.response.status], if any *)
| Error (message : string).

Inductive Completion (A : Type) : Type :=
| Normal (a : A)
| Throw (e : Exn).
Arguments Normal {A} a.
Arguments Throw {A} e.

#[global] Instance Completion_ret : MRet Completion := fun _ a => Normal a.
#[global] Instance Completion_bind : MBind Completion := fun _ _ f m =>
  match m with
  | Normal a => f a
  | Throw e => Throw e
  end.

(** ** Values of a payload *)

(** A field of a JSON payload or of a parsed query string, as far as this
    code can observe it: its [typeof] class, its truthiness and what
    [ToString] makes of it. A number is kept as the decimal text that
    prints it ("42.5", "3600"); an object or array that prints as its
    [ToString] text ("[object Object]", "1,2"). [JsUnprintable] is an
    object or array that has no primitive value: an object with an own
    [toString] property, which in parsed data is never callable (as
    [{"toString": 1}]), or an array that holds one. *)
Inductive JsValue : Type :=
| JsUndefined
| JsNull
| JsBool (b : bool)
| JsNum (text : string)
| JsStr (s : string)
| JsObject (text : string)
| JsUnprintable.

Definition is_string (v : JsValue) : bool :=
  match v with JsStr _ => true | _ => false end.

Definition string_eqb (a b : string) : bool := String.eqb a b.

Definition truthy (v : JsValue) : bool :=
  match v with
  | JsUndefined | JsNull => false
  | JsBool b => b
  | JsNum t => negb (string_eqb t "0") && negb (string_eqb t "NaN")
  | JsStr s => negb (string_eqb s "")
  | JsObject _ => true
  | JsUnprintable => true
  end.

(** [ToString(v)]: for an object, [ToPrimitive] with hint string, which
    tries [toString] and then [valueOf] and throws a TypeError when
    neither yields a primitive. *)
Definition ToString (v : JsValue) : Completion string :=
  match v with
  | JsUndefined => Normal "undefined"
  | JsNull => Normal "null"
  | JsBool true => Normal "true"
  | JsBool false => Normal "false"
  | JsNum t => Normal t
  | JsStr s => Normal s
  | JsObject t => Normal t
  | JsUnprintable => Throw TypeError
  end.

(** [parseFloat(v)] and [parseInt(v, 10)]: the argument is converted to a
    string first. *)
Definition parseFloat (v : JsValue) : Completion Number :=
  inputString ← ToString v;
  mret (parseFloat_chars (to_chars inputString)).

Definition parseInt10 (v : JsValue) : Completion (option Z) :=
  inputString ← ToString v;
  mret (parseInt_chars (to_chars inputString)).

(** ** City normalizer (controller) *)

Record RawCityRecord : Type := {
  raw_name : JsValue;
  raw_country : JsValue;
  raw_pollution : JsValue;
}.

Record NormalizedCity : Type := {
  originalName : string;
  lookupName : string;
  country : string;
  pollution : Number;
}.

(** Reading a property of [data]: a TypeError on null or undefined. *)
Definition get_prop (f : RawCityRecord -> JsValue)
    (data : option RawCityRecord) : Completion JsValue :=
  match data with
  | Some r => Normal (f r)
  | None => Throw TypeError
  end.

(** Calling [.trim()] on a value: a TypeError unless it is a string. *)
Definition call_trim (v : JsValue) : Completion string :=
  match v with
  | JsStr s => Normal (trim s)
  | _ => Throw TypeError
  end.

(** Steps 1 and 2 of the lookup name, and the final clean-up, as they are
    chained in normalizeCityData from the trimmed original name. *)
Definition lookup_chars (original : chars) : chars :=
  let l1 := trim_chars (strip_parens original) in
  let l2 := trim_chars
              (join_chars " " (map capitalize (split_chars " " l1))) in
  trim_chars (collapse_spaces l2).

Definition deriveLookupName (original : string) : string :=
  of_chars (lookup_chars (to_chars original)).

(** The filter on the cleaned name:
    [lookupName === '' || /^[0-9]+$/.test(lookupName) || lookupName.length <= 1] *)
Definition invalid_lookup (l : string) : bool :=
  string_eqb l "" || all_digits (to_chars l) || (str_length l <=? 1)%nat.

Definition normalizeCityData (data : option RawCityRecord)
    : Completion (option NormalizedCity) :=
  bad_name ←
    match data with
    | None => mret true                            (* !data *)
    | Some _ =>
        n ← get_prop raw_name data;
        if negb (is_string n) then mret true
        else t ← call_trim n; mret (string_eqb t "")
    end;
  if (bad_name : bool) then mret None else
  bad_country ←
    (c ← get_prop raw_country data;
     if negb (is_string c) then mret true
     else t ← call_trim c; mret (string_eqb t ""));
  if (bad_country : bool) then mret None else
  p ← get_prop raw_pollution data;
  pollutionValue ← parseFloat p;
  if isNaN pollutionValue || is_negative pollutionValue then mret None else
  n ← get_prop raw_name data;
  original ← call_trim n;
  let lookup := deriveLookupName original in
  if invalid_lookup lookup then mret None else
  c ← get_prop raw_country data;
  ctry ← call_trim c;
  mret (Some {| originalName := original; lookupName := lookup;
                country := ctry; pollution := pollutionValue |}).

Definition mkRaw (n c p : JsValue) : option RawCityRecord :=
  Some {| raw_name := n; raw_country := c; raw_pollution := p |}.

(** ** Upstream payloads *)

(** [response.data] of [POST /auth/login]. *)
Record LoginData : Type := {
  login_token : JsValue;
  login_expiresIn : JsValue;
}.

Record Meta : Type := {
  totalPages : option Z;          (* [None]: the field is undefined *)
}.

(** [response.data] of [GET /pollution]; [None] for a missing (falsy)
    field. *)
Record PollutionPayload : Type := {
  payload_meta : option Meta;
  payload_results : option (list RawCityRecord);
}.

(** What one country contributes, and the aggregated result. A total of
    [None] stands for NaN. *)
Record CountryResult : Type := {
  cr_cities : list RawCityRecord;
  cr_total : option Z;
}.

Record PollutionResult : Type := {
  r_cities : list RawCityRecord;
  r_page : Z;
  r_limit : Z;
  r_total : option Z;
}.

(** ** The shared cache, the clock and the outside world *)

(** What the code stores in the node-cache instance of utils/cache. *)
Inductive CacheValue : Type :=
| CvText (s : string)                          (* an accepted description *)
| CvWiki (description title : string)          (* a fetchCityDescription result *)
| CvToken (token : JsValue) (expiresAt : Z)    (* expiresAt in milliseconds *)
| CvPollution (r : PollutionResult).

(** An entry of node-cache: the value, when it was stored (milliseconds)
    and the ttl given to [set] (seconds, 0 for no expiry). *)
Record Entry : Type := {
  entry_value : CacheValue;
  entry_stored : Z;
  entry_ttl : Z;
}.

(** Requests that leave the process, and calls of the lookup service. *)
Inductive Event : Type :=
| EvLogin
| EvPollutionGet (country : string) (page limit : Z) (token : JsValue)
| EvWikiLookup (query : string).

Record World : Type := {
  store : gmap string Entry;
  now : Z;                         (* [Date.now()], in milliseconds *)
  events : list Event;             (* most recent last *)
}.

Inductive HttpResult (A : Type) : Type :=
| HttpOk (data : A)
| HttpError (status : option Z).   (* axios rejects; [None]: no response *)
Arguments HttpOk {A} data.
Arguments HttpError {A} status.

(** The services behind the HTTP calls. An answer may depend on the time
    at which the request is issued; [latency t] is the time a round of
    requests issued at [t] takes. [wikipedia_api t q] is what the try
    block of fetchCityDescription computes for query [q] (the search, the
    extract and the shortened first sentence), [None] when it yields
    null or catches an error. *)
Record Env : Type := {
  login_api : Z -> HttpResult (option LoginData);
  pollution_api : Z -> string -> Z -> Z -> JsValue -> HttpResult PollutionPayload;
  wikipedia_api : Z -> string -> option (string * string);
  latency : Z -> Z;
}.

Definition M (A : Type) : Type := World -> Completion A * World.

#[global] Instance M_ret : MRet M := fun _ a w => (Normal a, w).
#[global] Instance M_bind : MBind M := fun _ _ f m w =>
  match m w with
  | (Normal a, w') => f a w'
  | (Throw e, w') => (Throw e, w')
  end.

Definition throw {A : Type} (e : Exn) : M A := fun w => (Throw e, w).

(** A step that has no effect on the world. *)
Definition lift_completion {A : Type} (c : Completion A) : M A :=
  fun w => (c, w).

Definition try_catch {A : Type} (body : M A) (handler : Exn -> M A) : M A :=
  fun w =>
    match body w with
    | (Normal a, w') => (Normal a, w')
    | (Throw e, w') => handler e w'
    end.

Definition clock : M Z := fun w => (Normal (now w), w).

Definition entry_live (t : Z) (e : Entry) : bool :=
  (entry_ttl e =? 0) || (t <=? entry_stored e + entry_ttl e * 1000).

(** [cache.get(key)]: the value of a live entry. *)
Definition cache_lookup (w : World) (key : string) : option CacheValue :=
  match store w !! key with
  | Some e => if entry_live (now w) e then Some (entry_value e) else None
  | None => None
  end.

Definition cache_get (key : string) : M (option CacheValue) :=
  fun w => (Normal (cache_lookup w key), w).

(** [cache.set(key, value, ttl)] *)
Definition cache_set (key : string) (v : CacheValue) (ttl : Z) : M unit :=
  fun w =>
    (Normal tt,
     {| store := <[key := {| entry_value := v; entry_stored := now w;
                             entry_ttl := ttl |}]> (store w);
        now := now w; events := events w |}).

(** Issuing requests: the events are recorded and the clock moves on by
    the latency of the round. *)
Definition request {A : Type} (env : Env) (evs : list Event)
    (answer : Z -> A) : M A :=
  fun w =>
    (Normal (answer (now w)),
     {| store := store w; now := now w + latency env (now w);
        events := events w ++ evs |}).

Definition record_event (ev : Event) : M unit :=
  fun w =>
    (Normal tt,
     {| store := store w; now := now w; events := events w ++ [ev] |}).

(** [if (x)] on what [cache.get] returned. *)
Definition truthy_cached (v : option CacheValue) : bool :=
  match v with
  | None => false
  | Some (CvText s) => negb (string_eqb s "")
  | Some _ => true
  end.

(** ** Wikipedia service *)

Definition WIKIPEDIA_CACHE_TTL : Z := 3600.

Definition fetchCityDescription (env : Env) (query : string)
    : M (option CacheValue) :=
  _ ← record_event (EvWikiLookup query);
  let cacheKey := "wiki_desc_search_" +:+ query in
  cachedData ← cache_get cacheKey;
  if truthy_cached cachedData then mret cachedData else
  found ← request env [] (fun t => wikipedia_api env t query);
  match found with
  | Some (shortDescription, title) =>
      let result := CvWiki shortDescription title in
      _ ← cache_set cacheKey result WIKIPEDIA_CACHE_TTL;
      mret (Some result)
  | None => mret None
  end.

(** ** Description resolver (controller) *)

Definition searchQueries (originalName countryName lookupName : string)
    : list string :=
  [ originalName +:+ ", " +:+ countryName;
    lookupName +:+ ", " +:+ countryName;
    originalName;
    lookupName ].

(** [countryNames[countryName.toUpperCase()] || []] *)
Definition countryNames (key : string) : list string :=
  if string_eqb key "PL" then ["Poland"; "Polish"]
  else if string_eqb key "DE" then ["Germany"; "German"]
  else if string_eqb key "ES" then ["Spain"; "Spanish"]
  else if string_eqb key "FR" then ["France"; "French"]
  else [].

Definition strongNegativeKeywords : list string :=
  [ "may refer to:"; "disambiguation page"; "film"; "album"; "number"; "symbol";
    "species"; "river"; "mountain range"; "historical region"; "concept"; "theory";
    "organization"; "company"; "product"; "mathematical"; "scientific"; "list of";
    "is a character in"; "is a fictional"; "is an abstract"; "is a type of"; "refers to";
    "is a genus of"; "is a surname"; "is a given name"; "is a song"; "is an episode";
    "is a novel by"; "is a play by"; "is a television series"; "is a video game";
    "is a computer program"; "is an acronym for"; "is a chemical element"; "is a unit of";
    "dictator"; "tank series"; "medicine"; "monitoring"; "political party"; "streaming service"; "election"; "polling";
    "aircraft"; "military"; "weapon"; "vehicle"; "disease"; "condition"; "medical parameter"; "observation of"; "historical figure";
    "fictional character"; "fictional place"; "fictional entity"; "corporate entity"; "software"; "platform"; "service";
    "industrial region"; "power plant"; "monitoring station"; "industrial zone"; "unknown point";
    "facility"; "station"; "complex"; "area (disambiguation)"; "site (disambiguation)"; "point (disambiguation)";
    "alpha (disambiguation)"; "b (disambiguation)"; "c (disambiguation)"; "d (disambiguation)"; "e (disambiguation)";
    "number (disambiguation)"; "number theory"; "mathematical constant"; "mathematical concept";
    "medical condition"; "medical device"; "medical procedure"; "medical treatment"; "medical system";
    "military unit"; "military base"; "military operation"; "military vehicle"; "military aircraft";
    "political party"; "political movement"; "political organization"; "political system"; "political theory";
    "streaming service"; "television series"; "video game"; "software platform"; "software service";
    "historical event"; "historical period"; "historical figure"; "historical site";
    "geological feature"; "body of water"; "mountain range"; "natural feature" ].

Definition isStrongNegativeMatch (lowerText : string) : bool :=
  existsb (fun keyword => includes lowerText keyword) strongNegativeKeywords.

Definition isCountryRelevant (countryName lowerDesc lowerTitle : string) : bool :=
  let relevantCountryTerms := countryNames (toUpperCase countryName) in
  let lowerCountryTerms := map toLowerCase relevantCountryTerms in
  existsb (fun term => includes lowerDesc term || includes lowerTitle term)
          lowerCountryTerms
  || includes lowerDesc (toLowerCase countryName)
  || includes lowerTitle (toLowerCase countryName).

Definition isContentRelevantToQuery
    (originalName lookupName lowerDesc lowerTitle : string) : bool :=
  (includes lowerDesc (toLowerCase originalName)
   || includes lowerTitle (toLowerCase originalName))
  || (includes lowerDesc (toLowerCase lookupName)
      || includes lowerTitle (toLowerCase lookupName)).

(** The final decision of getWikipediaDescription on a fetched
    (description, title) pair. *)
Definition acceptsDescription
    (originalName countryName lookupName description title : string) : bool :=
  let lowerDesc := toLowerCase description in
  let lowerTitle := toLowerCase title in
  isCountryRelevant countryName lowerDesc lowerTitle
  && isContentRelevantToQuery originalName lookupName lowerDesc lowerTitle
  && negb (isStrongNegativeMatch lowerDesc)
  && negb (isStrongNegativeMatch lowerTitle).

(** [wikiData && wikiData.description]: the pair to judge, if any. *)
Definition described (wikiData : option CacheValue) : option (string * string) :=
  match wikiData with
  | Some (CvWiki d t) => if string_eqb d "" then None else Some (d, t)
  | _ => None
  end.

(** The body of the [for] loop over the queries. *)
Fixpoint resolveQueries (env : Env)
    (originalName countryName lookupName : string) (queries : list string)
    : M (option CacheValue) :=
  match queries with
  | [] => mret None
  | query :: rest =>
      let cacheKey := "wiki_" +:+ query in
      description ← cache_get cacheKey;
      if truthy_cached description then mret description else
      wikiData ← fetchCityDescription env query;
      match described wikiData with
      | Some (d, t) =>
          if acceptsDescription originalName countryName lookupName d t
          then _ ← cache_set cacheKey (CvText d) WIKIPEDIA_CACHE_TTL;
               mret (Some (CvText d))
          else resolveQueries env originalName countryName lookupName rest
      | None => resolveQueries env originalName countryName lookupName rest
      end
  end.

Definition getWikipediaDescription (env : Env)
    (originalName countryName lookupName : string) : M (option CacheValue) :=
  resolveQueries env originalName countryName lookupName
    (searchQueries originalName countryName lookupName).

(** ** Auth service *)

Definition AUTH_TOKEN_CACHE_KEY : string := "authToken".
Definition TOKEN_REFRESH_BUFFER : Z := 60.

Definition MSG_NO_TOKEN : string :=
  "Login API did not return a valid token or expiry (expiresIn).".
Definition MSG_BAD_EXPIRY : string :=
  "Invalid expiresIn value received from login API.".
Definition MSG_INVALID_CREDENTIALS : string :=
  "Login failed: Invalid username or password for pollution API.".
Definition MSG_LOGIN_FAILED : string :=
  "Failed to obtain authentication token from login API.".

(** [tokenData && tokenData.token && tokenData.expiresAt > Date.now() / 1000 + BUFFER],
    with both sides of the comparison in milliseconds. *)
Definition cached_token (tokenData : option CacheValue) (t : Z) : option JsValue :=
  match tokenData with
  | Some (CvToken token expiresAt) =>
      if truthy token && (t + TOKEN_REFRESH_BUFFER * 1000 <? expiresAt)
      then Some token else None
  | _ => None
  end.

(** [axios.post(BASE_URL + '/auth/login', ...)], and the destructuring of
    [response.data], a TypeError when there is no data. *)
Definition post_login (env : Env) : M LoginData :=
  r ← request env [EvLogin] (login_api env);
  match r with
  | HttpOk (Some d) => mret d
  | HttpOk None => throw TypeError
  | HttpError status => throw (AxiosError status)
  end.

Definition is_undefined (v : JsValue) : bool :=
  match v with JsUndefined => true | _ => false end.

(** The body of the [try] of getAuthToken. *)
Definition login (env : Env) : M JsValue :=
  d ← post_login env;
  let token := login_token d in
  let expiresIn := login_expiresIn d in
  if negb (truthy token) || is_undefined expiresIn
  then throw (Error MSG_NO_TOKEN) else
  parsed ← lift_completion (parseInt10 expiresIn);
  match parsed with
  | None => throw (Error MSG_BAD_EXPIRY)
  | Some expiresInSeconds =>
      if expiresInSeconds <=? 0 then throw (Error MSG_BAD_EXPIRY) else
      let cacheTTL := expiresInSeconds - TOKEN_REFRESH_BUFFER in
      t ← clock;
      let tokenData := CvToken token (t + expiresInSeconds * 1000) in
      _ ← (if cacheTTL <=? 0
           then cache_set AUTH_TOKEN_CACHE_KEY tokenData 10
           else cache_set AUTH_TOKEN_CACHE_KEY tokenData cacheTTL);
      mret token
  end.

(** The [catch] of getAuthToken. *)
Definition login_failure (error : Exn) : M JsValue :=
  match error with
  | AxiosError (Some 401) => throw (Error MSG_INVALID_CREDENTIALS)
  | _ => throw (Error MSG_LOGIN_FAILED)
  end.

Definition getAuthToken (env : Env) : M JsValue :=
  tokenData ← cache_get AUTH_TOKEN_CACHE_KEY;
  t ← clock;
  match cached_token tokenData t with
  | Some token => mret token
  | None => try_catch (login env) login_failure
  end.

(** ** Pollution service *)

Definition AVAILABLE_COUNTRIES : list string := ["PL"; "DE"; "ES"; "FR"].

Definition MSG_FETCH_FAILED : string :=
  "Failed to fetch pollution data from API.".

(** [a * b] and [a + b] on counts, [None] being NaN. *)
Definition count_mul (a : option Z) (b : Z) : option Z :=
  match a with Some x => Some (x * b) | None => None end.

Definition count_add (a b : option Z) : option Z :=
  match a, b with Some x, Some y => Some (x + y) | _, _ => None end.

(** [meta.totalPages || 0] *)
Definition or_zero (a : option Z) : option Z :=
  match a with
  | Some x => Some x
  | None => Some 0
  end.

Definition tag_country (ctry : string) (city : RawCityRecord) : RawCityRecord :=
  {| raw_name := raw_name city; raw_country := JsStr ctry;
     raw_pollution := raw_pollution city |}.

(** What the callback of [countriesToQuery.map] makes of the answer to its
    request. *)
Definition country_result (ctry : string) (limit : Z)
    (answer : HttpResult PollutionPayload) : Completion CountryResult :=
  match answer with
  | HttpError status => Throw (AxiosError status)
  | HttpOk data =>
      match payload_meta data, payload_results data with
      | None, _ => Throw TypeError                 (* meta.totalPages *)
      | Some meta, None =>
          Normal {| cr_cities := []; cr_total := or_zero (totalPages meta) |}
      | Some meta, Some results =>
          Normal {| cr_cities := map (tag_country ctry) results;
                    cr_total := count_mul (totalPages meta) limit |}
      end
  end.

Definition supported (ctry : string) : bool :=
  existsb (string_eqb ctry) AVAILABLE_COUNTRIES.

(** One callback of the map, run at time [t]. The Authorization header
    [`Bearer ${authToken}`] is built, and the token converted to a string,
    before the request is sent. *)
Definition country_promise (env : Env) (t page limit : Z) (authToken : JsValue)
    (ctry : string) : Completion CountryResult :=
  if negb (supported ctry)
  then Normal {| cr_cities := []; cr_total := Some 0 |}
  else
    _ ← ToString authToken;
    country_result ctry limit (pollution_api env t ctry page limit authToken).

(** The requests a round over [countries] sends: one per available
    country, none when the header cannot be built. *)
Definition requests_sent (countries : list string) (page limit : Z)
    (authToken : JsValue) : list Event :=
  match ToString authToken with
  | Normal _ =>
      map (fun c => EvPollutionGet c page limit authToken)
          (filter (fun c => supported c = true) countries)
  | Throw _ => []
  end.

(** [Promise.all]: the results in order, or the first rejection. *)
Fixpoint promise_all {A : Type} (ps : list (Completion A))
    : Completion (list A) :=
  match ps with
  | [] => Normal []
  | p :: rest =>
      match p, promise_all rest with
      | Throw e, _ => Throw e
      | Normal _, Throw e => Throw e
      | Normal a, Normal l => Normal (a :: l)
      end
  end.

(** The [forEach] that merges the per-country results. *)
Definition aggregate (resultsPerCountry : list CountryResult)
    : list RawCityRecord * option Z :=
  fold_left
    (fun acc countryResult =>
       (fst acc ++ cr_cities countryResult,
        count_add (snd acc) (cr_total countryResult)))
    resultsPerCountry ([], Some 0).

Definition countriesToQuery (countryCode : option string) : list string :=
  match countryCode with
  | Some c => if string_eqb c "" then AVAILABLE_COUNTRIES else [toUpperCase c]
  | None => AVAILABLE_COUNTRIES
  end.

(** An omitted argument is [None]. *)
Definition fetchPollutionData (env : Env) (countryCode : option string)
    (page_arg limit_arg : option Z) : M PollutionResult :=
  let page := default 1 page_arg in
  let limit := default 10 limit_arg in
  try_catch
    (authToken ← getAuthToken env;
     let countries := countriesToQuery countryCode in
     let sent := requests_sent countries page limit authToken in
     promises ← request env sent
       (fun t => map (country_promise env t page limit authToken) countries);
     resultsPerCountry ← lift_completion (promise_all promises);
     let '(allCities, totalFromAPI) := aggregate resultsPerCountry in
     mret {| r_cities := allCities; r_page := page; r_limit := limit;
             r_total := totalFromAPI |})
    (fun _ => throw (Error MSG_FETCH_FAILED)).

(** ** Result assembler (controller) *)

Record EnrichedCity : Type := {
  e_name : string;
  e_country : string;
  e_pollution : Number;
  e_description : CacheValue;
}.

(** A Number that is neither NaN nor negative, as normalizeCityData lets
    through. *)
Definition valid_pollution (n : Number) : bool :=
  negb (isNaN n || is_negative n).

(** [a !== b] on Numbers: NaN differs from everything. *)
Definition number_neq (a b : Number) : bool :=
  match a, b with
  | Finite x, Finite y => negb (Qeq_bool x y)
  | PosInfinity, PosInfinity => false
  | NegInfinity, NegInfinity => false
  | _, _ => true
  end.

(** The sign of [a - b]; [Eq] also when the difference is NaN, which
    [sort] treats as zero. *)
Definition number_sub_sign (a b : Number) : comparison :=
  match a, b with
  | Finite x, Finite y => (x ?= y)%Q
  | NaN, _ | _, NaN => Eq
  | PosInfinity, PosInfinity => Eq
  | NegInfinity, NegInfinity => Eq
  | PosInfinity, _ => Gt
  | _, PosInfinity => Lt
  | NegInfinity, _ => Lt
  | _, NegInfinity => Gt
  end.

Section Assembler.

(** [a.localeCompare(b)]: the collation order of the host's locale, here
    only through the sign of what it returns. *)
Variable localeCompare : string -> string -> comparison.

(** The comparison function given to [sort]: [Lt] when [a] goes first. *)
Definition compareCities (a b : EnrichedCity) : comparison :=
  if number_neq (e_pollution b) (e_pollution a)
  then number_sub_sign (e_pollution b) (e_pollution a)
  else localeCompare (e_name a) (e_name b).

(** [Array.prototype.sort], a stable sort: each element is put after the
    ones that do not have to follow it. *)
Fixpoint insert_city (x : EnrichedCity) (l : list EnrichedCity)
    : list EnrichedCity :=
  match l with
  | [] => [x]
  | y :: r =>
      match compareCities x y with
      | Gt => y :: insert_city x r
      | _ => x :: l
      end
  end.

Definition sortCities (l : list EnrichedCity) : list EnrichedCity :=
  foldr insert_city [] l.

(** The callback that pairs a city with its description, and the filter
    on its results. *)
Definition enrich (city : NormalizedCity) (description : option CacheValue)
    : option EnrichedCity :=
  match description with
  | Some d =>
      if truthy_cached description
      then Some {| e_name := originalName city; e_country := country city;
                   e_pollution := pollution city; e_description := d |}
      else None
  | None => None
  end.

Definition assembleCities
    (resolved : list (NormalizedCity * option CacheValue))
    : list EnrichedCity :=
  sortCities (omap (fun '(city, d) => enrich city d) resolved).

End Assembler.

(** ** Auxiliary notions used by the statements *)

(** The world once the login request has been answered. *)
Definition after_login (env : Env) (w : World) : World :=
  {| store := store w; now := now w + latency env (now w);
     events := events w ++ [EvLogin] |}.


(** A world with an empty cache, at time 0. *)
Definition empty_world : World :=
  {| store := ∅; now := 0; events := [] |}.

(** An environment whose answers do not depend on time and whose requests
    take one millisecond. *)
Definition fixed_env (login_answer : HttpResult (option LoginData))
    (pollution_answer : string -> HttpResult PollutionPayload)
    (wikipedia_answer : string -> option (string * string)) : Env :=
  {| login_api := fun _ => login_answer;
     pollution_api := fun _ c _ _ _ => pollution_answer c;
     wikipedia_api := fun _ q => wikipedia_answer q;
     latency := fun _ => 1 |}.

Definition login_ok (token expiresIn : JsValue) : HttpResult (option LoginData) :=
  HttpOk (Some {| login_token := token; login_expiresIn := expiresIn |}).

Definition no_pollution (c : string) : HttpResult PollutionPayload :=
  HttpError (Some 404).

Definition no_wikipedia (q : string) : option (string * string) := None.

(** The sum of the per-country totals, as [+=] accumulates it from 0. *)
Definition sum_totals (rs : list CountryResult) : option Z :=
  fold_left (fun acc r => count_add acc (cr_total r)) rs (Some 0).

(** A login that reports an expiry of 30 seconds, and the world it leaves
    behind when run in the empty one. *)
Definition short_expiry_env : Env :=
  fixed_env (login_ok (JsStr "t0k3n") (JsNum "30")) no_pollution no_wikipedia.

Definition short_expiry_world : World :=
  {| store :=
       <[AUTH_TOKEN_CACHE_KEY :=
           {| entry_value := CvToken (JsStr "t0k3n") 30001;
              entry_stored := 1; entry_ttl := 10 |}]> ∅;
     now := 1; events := [EvLogin] |}.

(** An upstream that answers every country with three pages and one
    reading, and one that leaves the results out. *)
Definition sample_city : RawCityRecord :=
  {| raw_name := JsStr "Warsaw"; raw_country := JsUndefined;
     raw_pollution := JsNum "42.5" |}.

Definition pages_with_results (c : string) : HttpResult PollutionPayload :=
  HttpOk {| payload_meta := Some {| totalPages := Some 3 |};
            payload_results := Some [sample_city] |}.

Definition pages_without_results (c : string) : HttpResult PollutionPayload :=
  HttpOk {| payload_meta := Some {| totalPages := Some 3 |};
            payload_results := None |}.

Definition serving_env : Env :=
  fixed_env (login_ok (JsStr "t0k3n") (JsNum "3600"))
    pages_with_results no_wikipedia.

Definition resultless_env : Env :=
  fixed_env (login_ok (JsStr "t0k3n") (JsNum "3600"))
    pages_without_results no_wikipedia.

(** The run of the pollution service against [serving_env] for country
    PL without page or limit, and what it returns. *)
Definition serving_result : PollutionResult :=
  {| r_cities := [tag_country "PL" sample_city];
     r_page := 1; r_limit := 10; r_total := Some 30 |}.

Definition serving_world : World :=
  snd (fetchPollutionData serving_env (Some "PL") None None empty_world).

(** *** The normalizer as the specification words it *)

(** The float the pollution field parses to; a field that cannot be
    converted to a string parses to none. *)
Definition parsed_pollution (v : JsValue) : Number :=
  match parseFloat v with
  | Normal n => n
  | Throw _ => NaN
  end.

Definition field_text (v : JsValue) : option string :=
  match v with JsStr s => Some s | _ => None end.

(** Missing (absent or not a string) or blank. *)
Definition missing_or_blank (v : JsValue) : bool :=
  match field_text v with
  | Some s => string_eqb (trim s) ""
  | None => true
  end.

Definition non_negative_float (n : Number) : bool :=
  negb (isNaN n) && negb (is_negative n).

Definition text_or_empty (v : JsValue) : string :=
  match field_text v with Some s => s | None => "" end.

(** The record is to be dropped: name or country missing or blank,
    pollution not a non-negative float, or a lookup name that is empty,
    all digits or at most one character long. *)
Definition rejects (data : option RawCityRecord) : bool :=
  match data with
  | None => true
  | Some r =>
      let lookup := deriveLookupName (trim (text_or_empty (raw_name r))) in
      missing_or_blank (raw_name r)
      || missing_or_blank (raw_country r)
      || negb (non_negative_float (parsed_pollution (raw_pollution r)))
      || string_eqb lookup ""
      || all_digits (to_chars lookup)
      || (str_length lookup <=? 1)%nat
  end.

Definition normalized_of (r : RawCityRecord) : NormalizedCity :=
  let name := trim (text_or_empty (raw_name r)) in
  {| originalName := name; lookupName := deriveLookupName name;
     country := trim (text_or_empty (raw_country r));
     pollution := parsed_pollution (raw_pollution r) |}.

(** The record is one at which normalizeCityData gets as far as reading
    the pollution, and the pollution has no primitive value. *)
Definition unreadable_pollution (data : option RawCityRecord) : bool :=
  match data with
  | Some r =>
      negb (missing_or_blank (raw_name r))
      && negb (missing_or_blank (raw_country r))
      && match ToString (raw_pollution r) with
         | Normal _ => false
         | Throw _ => true
         end
  | None => false
  end.

(** A record as JSON [{"name": "Warsaw", "country": "Poland",
    "pollution": {"toString": 1}}] gives it. *)
Definition unprintable_record : RawCityRecord :=
  {| raw_name := JsStr "Warsaw"; raw_country := JsStr "Poland";
     raw_pollution := JsUnprintable |}.

Definition spec_normalize (data : option RawCityRecord)
    : option NormalizedCity :=
  match data with
  | Some r => if rejects data then None else Some (normalized_of r)
  | None => None
  end.

(** *** The order the assembler is to produce *)

(** [a < b] and [a === b] on Numbers that are not NaN. *)
Definition number_lt (a b : Number) : Prop :=
  match a, b with
  | Finite x, Finite y => (x < y)%Q
  | NegInfinity, Finite _ | NegInfinity, PosInfinity
  | Finite _, PosInfinity => True
  | _, _ => False
  end.

Definition number_same (a b : Number) : Prop :=
  match a, b with
  | Finite x, Finite y => (x == y)%Q
  | PosInfinity, PosInfinity | NegInfinity, NegInfinity => True
  | _, _ => False
  end.

(** [a] may stand in front of [b]: more polluted, or as polluted and not
    after [b] by name. *)
Definition comes_before (localeCompare : string -> string -> comparison)
    (a b : EnrichedCity) : Prop :=
  number_lt (e_pollution b) (e_pollution a) \/
  (number_same (e_pollution a) (e_pollution b) /\
   localeCompare (e_name a) (e_name b) <> Gt).

Definition has_number (c : EnrichedCity) : Prop :=
  isNaN (e_pollution c) = false.

(** The cities of the example of the specification; the description and
    the country play no part. *)
Definition city (name : string) (p : Z) : EnrichedCity :=
  {| e_name := name; e_country := "PL"; e_pollution := Finite (inject_Z p);
     e_description := CvText "a city" |}.

(** A collation to run the assembler with: the comparison of the code
    units, which is what [localeCompare] gives on upper-case ASCII
    letters. *)
Definition codeUnitCompare (a b : string) : comparison := String.compare a b.

(** *** The cascade as the specification words it *)

Definition wiki_key (query : string) : string := "wiki_" +:+ query.

(** No entry holds an empty description: the code stores descriptions
    only after it found them truthy. *)
Definition store_wf (w : World) : Prop :=
  forall key e, store w !! key = Some e -> entry_value e <> CvText "".

(** The candidate [query] fails in world [w], leaving [w1]: nothing is
    cached for it, and what the lookup service fetches is missing or does
    not pass the acceptance filters. *)
Definition candidate_fails (env : Env) (originalName countryName lookupName : string)
    (query : string) (w w1 : World) : Prop :=
  cache_lookup w (wiki_key query) = None /\
  exists wikiData,
    fetchCityDescription env query w = (Normal wikiData, w1) /\
    match described wikiData with
    | Some (d, t) =>
        acceptsDescription originalName countryName lookupName d t = false
    | None => True
    end.

(** [Cascade env o c l queries w result w']: trying the candidates
    [queries] in order from world [w] ends with [result] in world [w'].
    It stops at the first candidate that is cached or accepted, and gives
    null only when the candidates are used up. *)
Inductive Cascade (env : Env) (originalName countryName lookupName : string)
    : list string -> World -> option CacheValue -> World -> Prop :=
| cascade_exhausted w :
    Cascade env originalName countryName lookupName [] w None w
| cascade_cached query rest w v :
    cache_lookup w (wiki_key query) = Some v ->
    Cascade env originalName countryName lookupName (query :: rest) w (Some v) w
| cascade_accepted query rest w w1 d t :
    cache_lookup w (wiki_key query) = None ->
    fetchCityDescription env query w = (Normal (Some (CvWiki d t)), w1) ->
    d <> "" ->
    acceptsDescription originalName countryName lookupName d t = true ->
    Cascade env originalName countryName lookupName (query :: rest) w
      (Some (CvText d))
      (snd (cache_set (wiki_key query) (CvText d) WIKIPEDIA_CACHE_TTL w1))
| cascade_next query rest w w1 result w' :
    candidate_fails env originalName countryName lookupName query w w1 ->
    Cascade env originalName countryName lookupName rest w1 result w' ->
    Cascade env originalName countryName lookupName (query :: rest) w result w'.

(** An environment in which only the first candidate of Lodz is known to
    the lookup service. *)
Definition lodz_wikipedia (q : string) : option (string * string) :=
  if string_eqb q "Lodz, PL"
  then Some ("Lodz is a city in central Poland.", "Lodz")
  else None.

Definition lodz_env : Env :=
  fixed_env (HttpError None) no_pollution lodz_wikipedia.

(** *** Notions for the idempotence of the lookup name *)

(** An ASCII character that is not white space, or is the space itself. *)
Definition plain_char (c : ascii) : bool :=
  is_ascii c && (negb (is_space c) || ascii_eqb c " ").

Definition plain (l : chars) : Prop := Forall (fun c => plain_char c = true) l.

(** What [join (map capitalize (split l))] does, read character by
    character: [start] tells that a word begins here. *)
Fixpoint title_from (start : bool) (l : chars) : chars :=
  match l with
  | [] => []
  | c :: r =>
      if ascii_eqb c " " then c :: title_from true r
      else (if start then toUpperChar c else toLowerChar c)
             :: title_from false r
  end.

(** [l] is left alone by [title_from start]. *)
Fixpoint titled (start : bool) (l : chars) : bool :=
  match l with
  | [] => true
  | c :: r =>
      if ascii_eqb c " " then titled true r
      else ascii_eqb (if start then toUpperChar c else toLowerChar c) c
           && titled false r
  end.

Definition has_close (l : chars) : bool :=
  existsb (fun c => ascii_eqb c ")") l.

(** Some "(" of [l] is followed, at least one character later, by a ")":
    on a single line, what the pattern for parenthesised text needs. *)
Fixpoint viable (l : chars) : bool :=
  match l with
  | [] => false
  | c :: r => (ascii_eqb c "(" && has_close (tail r)) || viable r
  end.

(** No white space but single spaces, none of them after another;
    [after_space] tells that the character in front was one. *)
Fixpoint single_spaced (after_space : bool) (l : chars) : bool :=
  match l with
  | [] => true
  | c :: r =>
      if is_space c
      then negb after_space && ascii_eqb c " " && single_spaced true r
      else single_spaced false r
  end.

(** The raw record made of the lookup name of a normalized one, with the
    country and pollution of the record it came from. *)
Definition rewrap (r : RawCityRecord) (n : NormalizedCity) : RawCityRecord :=
  {| raw_name := JsStr (lookupName n); raw_country := raw_country r;
     raw_pollution := raw_pollution r |}.

(** The name "a<TAB>b", and the record of the specification's example. *)
Definition tab_name : string :=
  String "a" (String "009" (String "b" EmptyString)).

Definition tab_record : RawCityRecord :=
  {| raw_name := JsStr tab_name; raw_country := JsStr "PL";
     raw_pollution := JsNum "7" |}.

Definition warsaw_record : RawCityRecord :=
  {| raw_name := JsStr "wArSAW (Capital)"; raw_country := JsStr "PL";
     raw_pollution := JsStr "42.5" |}.

Definition warsaw_city : NormalizedCity :=
  {| originalName := "wArSAW (Capital)"; lookupName := "Warsaw";
     country := "PL"; pollution := Finite (85 # 2) |}.

(** ** Notions for the further properties *)

(** The world [w] looked at again when the clock shows [t]. *)
Definition at_time (w : World) (t : Z) : World :=
  {| store := store w; now := t; events := events w |}.

(** The world in which a login against [serving_env] has just stored its
    token (expiry 3600 seconds), and an environment that is offline. *)
Definition serving_login_world : World :=
  snd (getAuthToken serving_env empty_world).

Definition offline_env : Env :=
  fixed_env (HttpError None) no_pollution no_wikipedia.

(** The world once the round of pollution requests of [countries], sent
    from [w1], has been answered. *)
Definition after_requests (env : Env) (w1 : World) (countries : list string)
    (page limit : Z) (token : JsValue) : World :=
  {| store := store w1; now := now w1 + latency env (now w1);
     events := events w1 ++ requests_sent countries page limit token |}.




(** The pages an upstream answer reports, when it has results. *)
Definition reported_pages (answer : HttpResult PollutionPayload) : option Z :=
  match answer with
  | HttpOk {| payload_meta := Some m; payload_results := Some _ |} => totalPages m
  | _ => None
  end.

(** An upstream that accepts the login and fails every pollution request,
    and the world after the login against it. *)
Definition failing_pollution_env : Env :=
  fixed_env (login_ok (JsStr "t0k3n") (JsNum "3600")) no_pollution no_wikipedia.

Definition failing_login_world : World :=
  snd (getAuthToken failing_pollution_env empty_world).

(** The pages the answers to the requests of [countries] report, summed. *)
Definition pages_sum (env : Env) (t page limit : Z) (token : JsValue)
    (countries : list string) : Z :=
  fold_right
    (fun c acc =>
       default 0 (reported_pages (pollution_api env t c page limit token)) + acc)
    0 countries.

(** The key under which fetchCityDescription caches its result. *)
Definition search_key (query : string) : string :=
  "wiki_desc_search_" +:+ query.

(** The key belongs to the description caches. *)
Definition wiki_prefixed (key : string) : bool :=
  starts_with (to_chars "wiki_") (to_chars key).

(** The world left by the lookup of Lodz in the empty one. *)
Definition lodz_world : World :=
  snd (fetchCityDescription lodz_env "Lodz, PL" empty_world).

(** ** Wikipedia service: the short description of an extract *)

Definition is_sentence_end (c : ascii) : bool :=
  ascii_eqb c "." || ascii_eqb c "?" || ascii_eqb c "!" || (code c =? 10)%N.

(** The rest of a match of [/^(.+?([.?!]|\n)\s)/] once its first
    character is taken: the number of characters up to and including the
    white space after the first sentence end, the lazy [.+?] stopping at
    the first place that fits and failing at a line terminator. *)
Fixpoint sentence_end_from (l : chars) : option nat :=
  match l with
  | c :: ((d :: _) as r) =>
      if is_sentence_end c && is_space d then Some 2%nat
      else if is_line_terminator c then None
      else option_map S (sentence_end_from r)
  | _ => None
  end.

(** [extract.match(/^(.+?([.?!]|\n)\s)/)]: the matched text, if any. *)
Definition first_sentence (l : chars) : option chars :=
  match l with
  | c :: r =>
      if is_line_terminator c then None
      else match sentence_end_from r with
           | Some n => Some (take (S n) l)
           | None => None
           end
  | [] => None
  end.

(** [extract.split('\n')[0]] *)
Fixpoint before_newline (l : chars) : chars :=
  match l with
  | [] => []
  | c :: r => if (code c =? 10)%N then [] else c :: before_newline r
  end.

(** [s.lastIndexOf(x)], [None] for -1. *)
Fixpoint last_index_of (x : ascii) (l : chars) : option nat :=
  match l with
  | [] => None
  | c :: r =>
      match last_index_of x r with
      | Some i => Some (S i)
      | None => if ascii_eqb c x then Some 0%nat else None
      end
  end.

Definition maxLength : nat := 250.

(** The sentence chosen from the extract, before it is cut. *)
Definition chosen_sentence (extract : chars) : chars :=
  match first_sentence extract with
  | Some m => trim_chars m
  | None => trim_chars (before_newline extract)
  end.

(** The block that cuts a description longer than [maxLength]. *)
Definition cut_description (shortDescription : chars) : chars :=
  if (maxLength <? length shortDescription)%nat
  then
    let cut := trim_chars (take maxLength shortDescription) in
    let kept :=
      match last_index_of " " cut with
      | Some (S i) => take (S i) cut          (* lastSpace > 0 *)
      | _ => cut
      end in
    kept ++ to_chars "..."
  else shortDescription.

(** The [shortDescription] fetchCityDescription makes of an extract. *)
Definition shortDescriptionOf (extract : string) : string :=
  of_chars (cut_description (chosen_sentence (to_chars extract))).

(** ** Controller: the request handler *)

(** [req.query], with [JsUndefined] for a parameter that is absent; the
    country, when present, is a string. *)
Record Query : Type := {
  q_country : option string;
  q_page : JsValue;
  q_limit : JsValue;
}.

Definition hex_digit (c : ascii) : option Z :=
  let n := code c in
  if (48 <=? n)%N && (n <=? 57)%N then Some (Z.of_N n - 48)
  else if (97 <=? n)%N && (n <=? 102)%N then Some (Z.of_N n - 87)
  else if (65 <=? n)%N && (n <=? 70)%N then Some (Z.of_N n - 55)
  else None.

(** The value of the longest prefix of hexadecimal digits, [None] when
    there is none; [acc] holds the digits read so far. *)
Fixpoint hex_prefix (acc : option Z) (l : chars) : option Z :=
  match l with
  | c :: r =>
      match hex_digit c with
      | Some d => hex_prefix (Some (16 * default 0 acc + d)) r
      | None => acc
      end
  | [] => acc
  end.

(** [parseInt(s)] without a radix: a "0x" or "0X" prefix selects base 16,
    anything else base 10; [None] stands for NaN. *)
Definition parseInt_auto_chars (l : chars) : option Z :=
  let '(neg, l1) := read_sign (skip_spaces l) in
  let magnitude :=
    match l1 with
    | "0"%char :: x :: r =>
        if ascii_eqb x "x" || ascii_eqb x "X"
        then hex_prefix None r
        else match span_digits l1 with
             | ([], _) => None
             | (ds, _) => Some (digits_value ds)
             end
    | _ =>
        match span_digits l1 with
        | ([], _) => None
        | (ds, _) => Some (digits_value ds)
        end
    end in
  match magnitude with
  | Some m => Some (if neg then - m else m)
  | None => None
  end.

Definition parseInt (v : JsValue) : Completion (option Z) :=
  inputString ← ToString v;
  mret (parseInt_auto_chars (to_chars inputString)).

(** A destructuring default: used when the property is undefined. *)
Definition or_default (d v : JsValue) : JsValue :=
  match v with JsUndefined => d | _ => v end.

Definition POLLUTION_CACHE_KEY_PREFIX : string := "pollutedCitiesData".
Definition POLLUTION_CACHE_TTL : Z := 600.
Definition MSG_BAD_PAGINATION : string :=
  "Page and limit must be positive integers.".

(** An integer as a template literal prints it (decimal digits, as
    JavaScript does for integers below 10^21). *)
Definition show_int (z : Z) : string := NilZero.string_of_int (Z.to_int z).

(** [country || 'default'] *)
Definition country_or_default (ctry : option string) : string :=
  match ctry with
  | Some c => if string_eqb c "" then "default" else c
  | None => "default"
  end.

Definition pollutionCacheKey (ctry : option string) (page limit : Z) : string :=
  POLLUTION_CACHE_KEY_PREFIX +:+ "_" +:+ country_or_default ctry
    +:+ "_p" +:+ show_int page +:+ "_l" +:+ show_int limit.

(** Lines 19 to 30 of the handler: the pollution data, from the cache or
    fetched and then cached for ten minutes. *)
Definition loadPollutionData (env : Env) (ctry : option string)
    (parsedPage parsedLimit : Z) : M CacheValue :=
  let cacheKey := pollutionCacheKey ctry parsedPage parsedLimit in
  cached ← cache_get cacheKey;
  match (if truthy_cached cached then cached else None) with
  | Some pollutionData => mret pollutionData
  | None =>                                        (* !pollutionData *)
      fetched ← fetchPollutionData env ctry (Some parsedPage) (Some parsedLimit);
      _ ← cache_set cacheKey (CvPollution fetched) POLLUTION_CACHE_TTL;
      mret (CvPollution fetched)
  end.

(** The loop that keeps the entries normalizeCityData accepts. *)
Fixpoint validCities (entries : list RawCityRecord)
    : Completion (list NormalizedCity) :=
  match entries with
  | [] => mret []
  | cityEntry :: rest =>
      preparedCity ← normalizeCityData (Some cityEntry);
      valid ← validCities rest;
      mret (match preparedCity with
            | Some city => city :: valid
            | None => valid
            end)
  end.

Record ResponseBody : Type := {
  b_page : Z;
  b_limit : Z;
  b_total : nat;
  b_cities : list EnrichedCity;
}.

(** What the handler does with the request: a 200 with a body, the 400
    for bad pagination, or the error handed to [next]. *)
Inductive Response : Type :=
| Ok (body : ResponseBody)
| BadRequest (error : string)
| Failed (error : Exn).

Section Handler.

Variable env : Env.
Variable localeCompare : string -> string -> comparison.

(** The fan-out over the valid cities joined by [Promise.all]: the
    descriptions getWikipediaDescription resolved to, one per city and in
    their order, however the lookups interleaved. *)
Variable resolveAll : list NormalizedCity -> M (list (option CacheValue)).

Definition getPollutedCities (query : Query) : M Response :=
  try_catch
    (let page := or_default (JsNum "1") (q_page query) in
     let limit := or_default (JsNum "10") (q_limit query) in
     parsedPage ← lift_completion (parseInt page);
     parsedLimit ← lift_completion (parseInt limit);
     match parsedPage, parsedLimit with
     | Some parsedPage, Some parsedLimit =>
         if (parsedPage <? 1) || (parsedLimit <? 1)
         then mret (BadRequest MSG_BAD_PAGINATION)
         else
           pollutionData ←
             loadPollutionData env (q_country query) parsedPage parsedLimit;
           filteredAndEnrichedCities ←
             match pollutionData with
             | CvPollution data =>
                 valid ← lift_completion (validCities (r_cities data));
                 descriptions ← resolveAll valid;
                 mret (assembleCities localeCompare (zip valid descriptions))
             | _ => mret []
             end;
           mret (Ok {| b_page := parsedPage; b_limit := parsedLimit;
                       b_total := length filteredAndEnrichedCities;
                       b_cities := filteredAndEnrichedCities |})
     | _, _ => mret (BadRequest MSG_BAD_PAGINATION)
     end)
    (fun error => mret (Failed error)).

End Handler.


(** The page and limit of a query when both parse to integers of at
    least 1. *)
Definition pagination (query : Query) : Completion (option (Z * Z)) :=
  parsedPage ← parseInt (or_default (JsNum "1") (q_page query));
  parsedLimit ← parseInt (or_default (JsNum "10") (q_limit query));
  mret (match parsedPage, parsedLimit with
        | Some p, Some l => if (1 <=? p) && (1 <=? l) then Some (p, l) else None
        | _, _ => None
        end).

(** A city as the response may carry it: a name, a truthy description
    and a pollution that is a Number and not negative. *)
Definition presentable (c : EnrichedCity) : Prop :=
  e_name c <> "" /\
  truthy_cached (Some (e_description c)) = true /\
  isNaN (e_pollution c) = false /\ is_negative (e_pollution c) = false.

(** The result of the pollution service for a country it does not know. *)
Definition empty_result (page limit : Z) : PollutionResult :=
  {| r_cities := []; r_page := page; r_limit := limit; r_total := Some 0 |}.



Definition plain_query : Query :=
  {| q_country := Some "PL"; q_page := JsUndefined; q_limit := JsUndefined |}.

(** A fan-out that finds the same description for every city, and the
    body of the response to [plain_query] it leads to. *)
Definition resolve_described (cities : list NormalizedCity)
    : M (list (option CacheValue)) :=
  mret (map (fun _ => Some (CvText "A city.")) cities).

Definition plain_body : ResponseBody :=
  {| b_page := 1; b_limit := 10; b_total := 1;
     b_cities :=
       [ {| e_name := "Warsaw"; e_country := "PL";
            e_pollution := Finite (85 # 2);
            e_description := CvText "A city." |} ] |}.

Definition plain_world : World :=
  snd (getPollutedCities serving_env codeUnitCompare resolve_described
         plain_query empty_world).

(** * Properties *)

(** ** Conversions to a string *)

(** The one value [ToString] throws at, and what it throws. *)
Lemma ToString_throws v e :
  ToString v = Throw e -> v = JsUnprintable /\ e = TypeError.
Proof. destruct v as [| |[|]|t|s|t|]; try discriminate. now intros [= <-]. Qed.

Lemma parseInt10_throws v e : parseInt10 v = Throw e -> e = TypeError.
Proof.
  unfold parseInt10, mbind, Completion_bind.
  destruct (ToString v) as [s|e'] eqn:Hs; [discriminate|].
  intros [= <-]. now apply ToString_throws in Hs.
Qed.

(** ** Token cache and authenticator *)

(** A run of getAuthToken that finds no usable token in the cache is the
    login exchange under its catch. *)
Lemma getAuthToken_miss env w :
  cached_token (cache_lookup w AUTH_TOKEN_CACHE_KEY) (now w) = None ->
  getAuthToken env w = try_catch (login env) login_failure w.
Proof.
  intros Hmiss. unfold getAuthToken, mbind, M_bind, cache_get, clock.
  now rewrite Hmiss.
Qed.

Lemma getAuthToken_hit env w token :
  cached_token (cache_lookup w AUTH_TOKEN_CACHE_KEY) (now w) = Some token ->
  getAuthToken env w = (Normal token, w).
Proof.
  intros Hhit. unfold getAuthToken, mbind, M_bind, cache_get, clock.
  now rewrite Hhit.
Qed.

(** The handler of getAuthToken never returns normally. *)
Lemma login_failure_throws e w :
  exists m, login_failure e w = (Throw (Error m), w).
Proof.
  destruct e as [|[st|]|m]; simpl; eauto.
  destruct (decide (st = 401)) as [->|Hne]; simpl; eauto.
  destruct st as [|p|p]; eauto.
  do 9 (destruct p as [p|p|]; eauto).
Qed.

(** A throwing login leaves the store alone. *)
Lemma login_throw_store env w e w' :
  login env w = (Throw e, w') -> store w' = store w.
Proof.
  unfold login, post_login, mbind, M_bind, request, throw, mret, M_ret, clock,
    lift_completion.
  destruct (login_api env (now w)) as [[d|]|st]; simpl.
  - destruct (negb (truthy (login_token d)) || is_undefined (login_expiresIn d));
      [intros [= <- <-]; reflexivity|].
    destruct (parseInt10 (login_expiresIn d)) as [[n|]|ex];
      [|intros [= <- <-]; reflexivity|intros [= <- <-]; reflexivity].
    destruct (n <=? 0); [intros [= <- <-]; reflexivity|].
    destruct (n - TOKEN_REFRESH_BUFFER <=? 0); simpl; discriminate.
  - intros [= <- <-]; reflexivity.
  - intros [= <- <-]; reflexivity.
Qed.

(** What a login that returns has done. *)
Lemma login_normal env w token w' :
  login env w = (Normal token, w') ->
  exists d e,
    login_api env (now w) = HttpOk (Some d) /\
    token = login_token d /\
    truthy token = true /\
    parseInt10 (login_expiresIn d) = Normal (Some e) /\
    0 < e /\
    w' = {| store :=
              <[AUTH_TOKEN_CACHE_KEY :=
                  {| entry_value :=
                       CvToken token (now (after_login env w) + e * 1000);
                     entry_stored := now (after_login env w);
                     entry_ttl := if e - TOKEN_REFRESH_BUFFER <=? 0
                                  then 10 else e - TOKEN_REFRESH_BUFFER |}]>
                (store w);
            now := now (after_login env w);
            events := events (after_login env w) |}.
Proof.
  unfold login, post_login, mbind, M_bind, request, throw, mret, M_ret, clock,
    lift_completion.
  destruct (login_api env (now w)) as [[d|]|st] eqn:Hapi; simpl; try discriminate.
  destruct (truthy (login_token d)) eqn:Htok; simpl; try discriminate.
  destruct (is_undefined (login_expiresIn d)); simpl; try discriminate.
  destruct (parseInt10 (login_expiresIn d)) as [[n|]|ex] eqn:Hparse;
    try discriminate.
  destruct (n <=? 0) eqn:Hpos; try discriminate.
  apply Z.leb_gt in Hpos.
  destruct (n - TOKEN_REFRESH_BUFFER <=? 0) eqn:Hbuf; simpl;
    intros [= <- <-]; exists d, n; repeat split; auto;
    unfold after_login; simpl; now rewrite Hbuf.
Qed.

(** C8. Every login that succeeds stores the token under the time to live
    "reported expiry minus the 60 second buffer"; when that difference is
    not positive (an expiry of 30 seconds, say) the time to live is the
    fixed 10 seconds, never a non-positive one. *)
Theorem login_caches_token_with_buffered_ttl env w token w' :
  cached_token (cache_lookup w AUTH_TOKEN_CACHE_KEY) (now w) = None ->
  getAuthToken env w = (Normal token, w') ->
  exists d expiresInSeconds entry,
    login_api env (now w) = HttpOk (Some d) /\
    token = login_token d /\
    parseInt10 (login_expiresIn d) = Normal (Some expiresInSeconds) /\
    store w' !! AUTH_TOKEN_CACHE_KEY = Some entry /\
    entry_value entry = CvToken token (now w' + expiresInSeconds * 1000) /\
    0 < entry_ttl entry /\
    (0 < expiresInSeconds - 60 -> entry_ttl entry = expiresInSeconds - 60) /\
    (expiresInSeconds - 60 <= 0 -> entry_ttl entry = 10).
Proof.
  intros Hmiss Hrun. rewrite getAuthToken_miss in Hrun by exact Hmiss.
  unfold try_catch in Hrun.
  destruct (login env w) as [[tok|e] w1] eqn:Hlogin.
  - injection Hrun as -> ->.
    apply login_normal in Hlogin as (d & e & Hapi & Htok & _ & Hparse & Hpos & ->).
    exists d, e. eexists. simpl.
    rewrite lookup_insert_eq.
    repeat split; eauto; simpl; unfold TOKEN_REFRESH_BUFFER;
      destruct (e - 60 <=? 0) eqn:Hbuf;
      try apply Z.leb_le in Hbuf; try apply Z.leb_gt in Hbuf; lia.
  - destruct (login_failure_throws e w1) as [m Hm]. rewrite Hm in Hrun.
    discriminate.
Qed.

Lemma login_caches_token_with_buffered_ttl_witness :
  exists d expiresInSeconds entry,
    login_api short_expiry_env (now empty_world) = HttpOk (Some d) /\
    JsStr "t0k3n" = login_token d /\
    parseInt10 (login_expiresIn d) = Normal (Some expiresInSeconds) /\
    store short_expiry_world !! AUTH_TOKEN_CACHE_KEY = Some entry /\
    entry_value entry =
      CvToken (JsStr "t0k3n") (now short_expiry_world + expiresInSeconds * 1000) /\
    0 < entry_ttl entry /\
    (0 < expiresInSeconds - 60 -> entry_ttl entry = expiresInSeconds - 60) /\
    (expiresInSeconds - 60 <= 0 -> entry_ttl entry = 10).
Proof.
  apply (login_caches_token_with_buffered_ttl
           short_expiry_env empty_world (JsStr "t0k3n") short_expiry_world).
  - reflexivity.
  - reflexivity.
Defined.

(** An unauthorized answer of the login endpoint is reported with the
    message about the credentials. *)
Lemma unauthorized_login_is_invalid_credentials env w :
  cached_token (cache_lookup w AUTH_TOKEN_CACHE_KEY) (now w) = None ->
  login_api env (now w) = HttpError (Some 401) ->
  getAuthToken env w =
    (Throw (Error MSG_INVALID_CREDENTIALS), after_login env w).
Proof.
  intros Hmiss Hapi. rewrite getAuthToken_miss by exact Hmiss.
  unfold try_catch, login, post_login, mbind, M_bind, request, throw.
  rewrite Hapi. reflexivity.
Qed.

(** A request that gets no response ends in the generic failure. *)
Lemma unreachable_login_is_generic_failure env w :
  cached_token (cache_lookup w AUTH_TOKEN_CACHE_KEY) (now w) = None ->
  login_api env (now w) = HttpError None ->
  getAuthToken env w = (Throw (Error MSG_LOGIN_FAILED), after_login env w).
Proof.
  intros Hmiss Hapi. rewrite getAuthToken_miss by exact Hmiss.
  unfold try_catch, login, post_login, mbind, M_bind, request, throw.
  rewrite Hapi. reflexivity.
Qed.

(** C9. The two errors thrown for a login answer without a usable token
    or expiry are thrown inside the try block, so the catch of
    getAuthToken replaces them: the caller gets the generic failure, the
    one a request without any response produces, and cannot tell a
    malformed answer apart. *)
Theorem malformed_login_is_generic_failure env w d :
  cached_token (cache_lookup w AUTH_TOKEN_CACHE_KEY) (now w) = None ->
  login_api env (now w) = HttpOk (Some d) ->
  truthy (login_token d) = false \/
  login_expiresIn d = JsUndefined \/
  parseInt10 (login_expiresIn d) = Normal None \/
  (exists e, parseInt10 (login_expiresIn d) = Normal (Some e) /\ e <= 0) ->
  getAuthToken env w = (Throw (Error MSG_LOGIN_FAILED), after_login env w).
Proof.
  intros Hmiss Hapi Hbad. rewrite getAuthToken_miss by exact Hmiss.
  unfold try_catch, login, post_login, mbind, M_bind, request, throw,
    lift_completion.
  rewrite Hapi. simpl.
  destruct (truthy (login_token d)) eqn:Htok; simpl; [|reflexivity].
  destruct (is_undefined (login_expiresIn d)) eqn:Hundef; simpl; [reflexivity|].
  destruct (parseInt10 (login_expiresIn d)) as [[n|]|ex] eqn:Hparse;
    [|reflexivity|apply parseInt10_throws in Hparse as ->; reflexivity].
  destruct (n <=? 0) eqn:Hn; [reflexivity|]. apply Z.leb_gt in Hn.
  destruct Hbad as [H|[H|[H|(e & H & He)]]].
  - discriminate.
  - rewrite H in Hundef. discriminate.
  - discriminate.
  - injection H as ->. lia.
Qed.

Lemma malformed_login_is_generic_failure_witness :
  getAuthToken
    (fixed_env (login_ok (JsStr "t0k3n") JsUndefined) no_pollution no_wikipedia)
    empty_world
  = (Throw (Error MSG_LOGIN_FAILED),
     after_login
       (fixed_env (login_ok (JsStr "t0k3n") JsUndefined) no_pollution no_wikipedia)
       empty_world).
Proof.
  apply (malformed_login_is_generic_failure
           (fixed_env (login_ok (JsStr "t0k3n") JsUndefined)
              no_pollution no_wikipedia)
           empty_world
           {| login_token := JsStr "t0k3n"; login_expiresIn := JsUndefined |}).
  - reflexivity.
  - reflexivity.
  - right. left. reflexivity.
Defined.

(** C10. A call of getAuthToken that fails leaves the cache as it found
    it. *)
Theorem getAuthToken_failure_keeps_cache env w e w' :
  getAuthToken env w = (Throw e, w') ->
  store w' = store w.
Proof.
  intros Hrun.
  destruct (cached_token (cache_lookup w AUTH_TOKEN_CACHE_KEY) (now w))
    as [token|] eqn:Hc.
  - rewrite (getAuthToken_hit _ _ _ Hc) in Hrun. discriminate.
  - rewrite getAuthToken_miss in Hrun by exact Hc.
    unfold try_catch in Hrun.
    destruct (login env w) as [[tok|e1] w1] eqn:Hlogin; [discriminate|].
    destruct (login_failure_throws e1 w1) as [m Hm]. rewrite Hm in Hrun.
    injection Hrun as _ <-. eapply login_throw_store; eauto.
Qed.

Lemma getAuthToken_failure_keeps_cache_witness :
  store (after_login (fixed_env (HttpError (Some 401)) no_pollution no_wikipedia)
           empty_world)
  = store empty_world.
Proof.
  apply (getAuthToken_failure_keeps_cache
           (fixed_env (HttpError (Some 401)) no_pollution no_wikipedia)
           empty_world (Error MSG_INVALID_CREDENTIALS)).
  reflexivity.
Defined.

(** The cache entry of the token changes only in a call that returns. *)
Lemma token_entry_written_only_on_success env w r w' :
  getAuthToken env w = (r, w') ->
  store w' !! AUTH_TOKEN_CACHE_KEY <> store w !! AUTH_TOKEN_CACHE_KEY ->
  exists token, r = Normal token.
Proof.
  intros Hrun Hchanged. destruct r as [token|e]; [eauto|]. exfalso.
  destruct (cached_token (cache_lookup w AUTH_TOKEN_CACHE_KEY) (now w))
    as [token|] eqn:Hc.
  - rewrite (getAuthToken_hit _ _ _ Hc) in Hrun. discriminate.
  - rewrite getAuthToken_miss in Hrun by exact Hc.
    unfold try_catch in Hrun.
    destruct (login env w) as [[tok|e1] w1] eqn:Hlogin; [discriminate|].
    destruct (login_failure_throws e1 w1) as [m Hm]. rewrite Hm in Hrun.
    injection Hrun as _ <-. apply login_throw_store in Hlogin.
    rewrite Hlogin in Hchanged. contradiction.
Qed.

(** ** Pollution aggregator *)

Lemma aggregate_fold rs cities total :
  fold_left
    (fun acc countryResult =>
       (fst acc ++ cr_cities countryResult,
        count_add (snd acc) (cr_total countryResult)))
    rs (cities, total)
  = (cities ++ concat (map cr_cities rs),
     fold_left (fun acc r => count_add acc (cr_total r)) rs total).
Proof.
  revert cities total.
  induction rs as [|r rs IH]; intros cities total; simpl.
  - now rewrite app_nil_r.
  - rewrite IH. now rewrite <- app_assoc.
Qed.

(** The aggregated total is the sum of what the countries contribute. *)
Lemma aggregate_total rs : snd (aggregate rs) = sum_totals rs.
Proof. unfold aggregate, sum_totals. now rewrite aggregate_fold. Qed.

(** A country whose answer carries results contributes its total pages
    times the limit. *)
Lemma country_total_with_results ctry limit meta results :
  country_result ctry limit
    (HttpOk {| payload_meta := Some meta; payload_results := Some results |})
  = Normal {| cr_cities := map (tag_country ctry) results;
              cr_total := count_mul (totalPages meta) limit |}.
Proof. reflexivity. Qed.

(** C6. For an answer that has its page count but no results the branch
    for missing results returns the page count itself, not multiplied by
    the limit: three pages at limit 10 are counted as 3, not as 30. *)
Theorem missing_results_total_not_scaled :
  exists r w',
    fetchPollutionData resultless_env (Some "PL") (Some 1) (Some 10) empty_world
      = (Normal r, w') /\
    r_total r = Some 3 /\
    r_total r <> count_mul (Some 3) 10.
Proof.
  eexists. eexists. split; [reflexivity|]. split; [reflexivity|].
  simpl. discriminate.
Qed.

(** Where the arguments are left out the function runs as with page 1 and
    limit 10. *)
Lemma fetchPollutionData_defaults env countryCode :
  fetchPollutionData env countryCode None None
  = fetchPollutionData env countryCode (Some 1) (Some 10).
Proof. reflexivity. Qed.

Lemma fetchPollutionData_page_limit env countryCode page_arg limit_arg w r w' :
  fetchPollutionData env countryCode page_arg limit_arg w = (Normal r, w') ->
  r_page r = default 1 page_arg /\ r_limit r = default 10 limit_arg.
Proof.
  unfold fetchPollutionData, try_catch, mbind, M_bind, request,
    lift_completion, throw, mret, M_ret.
  destruct (getAuthToken env w) as [[token|e] w1]; [|discriminate].
  match goal with
  | |- context [promise_all ?ps] => destruct (promise_all ps) as [rs|e]
  end; [|discriminate].
  destruct (aggregate rs) as [cities total].
  intros [= <- <-]. split; reflexivity.
Qed.

(** C7 as stated fails: a call without page and limit returns limit 10. *)
Lemma default_limit_is_not_one :
  ~ (forall env countryCode w r w',
       fetchPollutionData env countryCode None None w = (Normal r, w') ->
       r_page r = 1 /\ r_limit r = 1).
Proof.
  intros H.
  destruct (fetchPollutionData serving_env (Some "PL") None None empty_world)
    as [c w'] eqn:Hrun.
  assert (Hc : exists r, c = Normal r /\ r_limit r = 10).
  { vm_compute in Hrun. injection Hrun as <- _. eexists. split; reflexivity. }
  destruct Hc as (r & -> & Hlimit).
  destruct (H _ _ _ _ _ Hrun) as [_ Hone]. rewrite Hone in Hlimit. discriminate.
Qed.

(** C7 (amended). When the page and limit arguments are omitted,
    fetchPollutionData defaults page to 1 and limit to 10: it sends the
    requests of, and returns what, the call with page 1 and limit 10
    does, and the result carries page 1 and limit 10. *)
Theorem default_page_and_limit env countryCode w r w' :
  fetchPollutionData env countryCode None None w = (Normal r, w') ->
  fetchPollutionData env countryCode (Some 1) (Some 10) w = (Normal r, w') /\
  r_page r = 1 /\ r_limit r = 10.
Proof.
  intros Hrun. split.
  - now rewrite <- fetchPollutionData_defaults.
  - apply fetchPollutionData_page_limit in Hrun. exact Hrun.
Qed.

Lemma default_page_and_limit_witness :
  fetchPollutionData serving_env (Some "PL") (Some 1) (Some 10) empty_world
    = (Normal serving_result, serving_world) /\
  r_page serving_result = 1 /\ r_limit serving_result = 10.
Proof.
  apply (default_page_and_limit serving_env (Some "PL") empty_world
           serving_result serving_world).
  reflexivity.
Defined.

(** ** City normalizer *)

(** What normalizeCityData does: it throws where it gets as far as the
    pollution and the pollution has no primitive value, and completes
    normally with what the specification says everywhere else. *)
Lemma normalizeCityData_run (data : option RawCityRecord) :
  normalizeCityData data =
    if unreadable_pollution data then Throw TypeError
    else Normal (spec_normalize data).
Proof.
  destruct data as [[n c p]|]; [|reflexivity].
  unfold normalizeCityData, unreadable_pollution, spec_normalize, rejects,
    normalized_of, parsed_pollution, parseFloat, missing_or_blank,
    non_negative_float, invalid_lookup, text_or_empty, field_text, get_prop,
    call_trim, is_string, mbind, Completion_bind, mret, Completion_ret.
  cbn [raw_name raw_country raw_pollution].
  destruct n as [| |b|t|s|t|]; try reflexivity.
  cbn [negb].
  destruct (string_eqb (trim s) ""); [reflexivity|].
  destruct c as [| |b|t|s'|t|]; try reflexivity.
  cbn [negb orb andb].
  destruct (string_eqb (trim s') ""); [reflexivity|].
  cbn [negb orb andb].
  destruct (ToString p) as [text|e] eqn:Hp.
  2:{ apply ToString_throws in Hp as [_ ->]. reflexivity. }
  destruct (isNaN (parseFloat_chars (to_chars text))); [reflexivity|].
  destruct (is_negative (parseFloat_chars (to_chars text))); [reflexivity|].
  cbn [negb orb andb].
  destruct (string_eqb (deriveLookupName (trim s)) ""); [reflexivity|].
  destruct (all_digits (to_chars (deriveLookupName (trim s))));
    [reflexivity|].
  destruct (str_length (deriveLookupName (trim s)) <=? 1)%nat; reflexivity.
Qed.

(** A record that normalizeCityData returns is the one the specification
    describes, and its pollution could be read. *)
Lemma normalizeCityData_Some data n :
  normalizeCityData data = Normal (Some n) ->
  unreadable_pollution data = false /\ spec_normalize data = Some n.
Proof.
  rewrite normalizeCityData_run.
  destruct (unreadable_pollution data); [discriminate|].
  intros [= ->]. now split.
Qed.

(** C3. The claim fails on the code where it says that normalization
    never throws: for a record whose name and country are present and not
    blank and whose pollution is an object without a primitive value
    (JSON [{"toString": 1}]), [parseFloat] throws a TypeError out of
    normalizeCityData, where the specification has the record dropped
    with null because its pollution does not parse to a float. *)
Theorem unprintable_pollution_throws r :
  missing_or_blank (raw_name r) = false ->
  missing_or_blank (raw_country r) = false ->
  raw_pollution r = JsUnprintable ->
  normalizeCityData (Some r) = Throw TypeError /\
  rejects (Some r) = true /\
  spec_normalize (Some r) = None.
Proof.
  intros Hname Hcountry Hp.
  assert (Hrej : rejects (Some r) = true).
  { unfold rejects. rewrite Hname, Hcountry, Hp. reflexivity. }
  split; [|split; [exact Hrej|]].
  - rewrite normalizeCityData_run. unfold unreadable_pollution.
    now rewrite Hname, Hcountry, Hp.
  - cbv beta delta [spec_normalize]. now rewrite Hrej.
Qed.

Lemma unprintable_pollution_throws_witness :
  normalizeCityData (Some unprintable_record) = Throw TypeError /\
  rejects (Some unprintable_record) = true /\
  spec_normalize (Some unprintable_record) = None.
Proof.
  apply (unprintable_pollution_throws unprintable_record).
  - reflexivity.
  - reflexivity.
  - reflexivity.
Defined.

(** The end-to-end example of the specification. *)
Example normalize_warsaw :
  normalizeCityData
    (mkRaw (JsStr "wArSAW (Capital)") (JsStr "PL") (JsStr "42.5"))
  = Normal (Some {| originalName := "wArSAW (Capital)"; lookupName := "Warsaw";
                    country := "PL"; pollution := Finite (85 # 2) |}).
Proof. reflexivity. Qed.

(** ** Description resolver: the acceptance policy *)

Lemma strong_negative_match text k :
  In k strongNegativeKeywords -> includes text k = true ->
  isStrongNegativeMatch text = true.
Proof.
  intros Hin Hinc. unfold isStrongNegativeMatch.
  apply existsb_exists. exists k. split; assumption.
Qed.

(** C2 as stated fails: the bare marker "(disambiguation)" is in none of
    the keywords, so a description that carries it can be accepted. *)
Lemma bare_disambiguation_marker_accepted :
  ~ (forall originalName countryName lookupName description title,
       includes description "(disambiguation)" = true ->
       acceptsDescription originalName countryName lookupName description title
         = false).
Proof.
  intros H.
  specialize (H "Lodz" "PL" "Lodz"
                "Lodz (disambiguation) lists places in Poland." "Lodz"
                eq_refl).
  vm_compute in H. discriminate.
Qed.

(** C2 (amended). A fetched pair whose lowercased description or title
    contains one of the listed negative keywords, the disambiguation
    markers among them, is rejected whatever the country-relevance and
    content-relevance checks say. *)
Theorem listed_keyword_rejects
    originalName countryName lookupName description title keyword :
  In keyword strongNegativeKeywords ->
  includes (toLowerCase description) keyword = true \/
  includes (toLowerCase title) keyword = true ->
  acceptsDescription originalName countryName lookupName description title
    = false.
Proof.
  intros Hin [Hd|Ht]; unfold acceptsDescription.
  - rewrite (strong_negative_match _ _ Hin Hd). simpl.
    now rewrite andb_false_r.
  - rewrite (strong_negative_match _ _ Hin Ht). simpl.
    now rewrite andb_false_r.
Qed.

Lemma listed_keyword_rejects_witness :
  acceptsDescription "Lodz" "PL" "Lodz"
    "Lodz may refer to: places in Poland" "Lodz (disambiguation)" = false.
Proof.
  apply (listed_keyword_rejects "Lodz" "PL" "Lodz"
           "Lodz may refer to: places in Poland" "Lodz (disambiguation)"
           "may refer to:").
  - simpl. left. reflexivity.
  - left. reflexivity.
Defined.

(** ** Result assembler *)

Lemma number_lt_trans a b c :
  number_lt a b -> number_lt b c -> number_lt a c.
Proof.
  destruct a, b, c; simpl; try tauto. apply Qlt_trans.
Qed.

Lemma number_lt_same a b c :
  number_lt a b -> number_same b c -> number_lt a c.
Proof.
  destruct a, b, c; simpl; try tauto. intros H1 H2. now rewrite <- H2.
Qed.

Lemma number_same_lt a b c :
  number_same a b -> number_lt b c -> number_lt a c.
Proof.
  destruct a, b, c; simpl; try tauto. intros H1 H2. now rewrite H1.
Qed.

Lemma number_same_trans a b c :
  number_same a b -> number_same b c -> number_same a c.
Proof.
  destruct a, b, c; simpl; try tauto. intros H1 H2. now rewrite H1.
Qed.

Lemma number_same_sym a b : number_same a b -> number_same b a.
Proof. destruct a, b; simpl; try tauto. intros H. now symmetry. Qed.

(** On Numbers that are not NaN, [!==] and the sign of the difference
    decide the order. *)
Lemma number_neq_false a b :
  isNaN a = false -> isNaN b = false ->
  number_neq a b = false -> number_same a b.
Proof.
  destruct a, b; simpl; try discriminate; try tauto.
  intros _ _ H. apply negb_false_iff in H. now apply Qeq_bool_iff.
Qed.

Lemma number_sub_sign_Gt a b :
  isNaN a = false -> isNaN b = false ->
  number_sub_sign a b = Gt -> number_lt b a.
Proof.
  destruct a, b; simpl; try discriminate; try tauto.
  intros _ _ H. now apply Qgt_alt.
Qed.

Lemma number_sub_sign_not_Gt a b :
  isNaN a = false -> isNaN b = false -> number_neq a b = true ->
  number_sub_sign a b <> Gt -> number_lt a b.
Proof.
  destruct a as [| | |x], b as [| | |y]; simpl;
    try discriminate; try tauto; try congruence.
  intros _ _ Hne H. apply negb_true_iff in Hne.
  destruct (x ?= y)%Q eqn:Hc.
  - apply Qeq_alt in Hc. apply Qeq_bool_iff in Hc. congruence.
  - now apply Qlt_alt.
  - congruence.
Qed.

Section SortedOutput.

Variable localeCompare : string -> string -> comparison.

(** What is asked of the collation: it is an order. *)
Hypothesis localeCompare_asym :
  forall a b, localeCompare a b = Gt -> localeCompare b a <> Gt.
Hypothesis localeCompare_trans :
  forall a b c, localeCompare a b <> Gt -> localeCompare b c <> Gt ->
                localeCompare a c <> Gt.

Lemma compareCities_Gt a b :
  has_number a -> has_number b ->
  compareCities localeCompare a b = Gt -> comes_before localeCompare b a.
Proof.
  unfold has_number, compareCities, comes_before. intros Ha Hb.
  destruct (number_neq (e_pollution b) (e_pollution a)) eqn:Hne.
  - intros H. left. now apply number_sub_sign_Gt.
  - intros H. right. split.
    + now apply number_neq_false.
    + now apply localeCompare_asym.
Qed.

Lemma compareCities_not_Gt a b :
  has_number a -> has_number b ->
  compareCities localeCompare a b <> Gt -> comes_before localeCompare a b.
Proof.
  unfold has_number, compareCities, comes_before. intros Ha Hb.
  destruct (number_neq (e_pollution b) (e_pollution a)) eqn:Hne.
  - intros H. left. now apply number_sub_sign_not_Gt.
  - intros H. right. split; [|exact H].
    apply number_same_sym. now apply number_neq_false.
Qed.

Lemma comes_before_trans a b c :
  comes_before localeCompare a b -> comes_before localeCompare b c ->
  comes_before localeCompare a c.
Proof.
  unfold comes_before. intros [H1|[H1 N1]] [H2|[H2 N2]].
  - left. eapply number_lt_trans; eauto.
  - left. eapply number_same_lt; eauto. now apply number_same_sym.
  - left. eapply number_lt_same; eauto. now apply number_same_sym.
  - right. split.
    + eapply number_same_trans; eauto.
    + eapply localeCompare_trans; eauto.
Qed.

Lemma insert_city_perm x l :
  Permutation (x :: l) (insert_city localeCompare x l).
Proof.
  induction l as [|y r IH]; simpl; [reflexivity|].
  destruct (compareCities localeCompare x y); try reflexivity.
  rewrite perm_swap. now apply perm_skip.
Qed.

Lemma sortCities_perm l : Permutation l (sortCities localeCompare l).
Proof.
  induction l as [|x l IH]; simpl; [reflexivity|].
  rewrite <- insert_city_perm. now apply perm_skip.
Qed.

Lemma insert_city_sorted x l :
  has_number x -> Forall has_number l ->
  StronglySorted (comes_before localeCompare) l ->
  StronglySorted (comes_before localeCompare) (insert_city localeCompare x l).
Proof.
  intros Hx Hl Hs. induction Hs as [|y r Hs IH Hy]; simpl.
  - constructor; constructor.
  - apply Forall_cons_iff in Hl as [Hny Hnr].
    destruct (compareCities localeCompare x y) eqn:Hc.
    + constructor; [now constructor|].
      assert (Hxy : comes_before localeCompare x y)
        by (apply compareCities_not_Gt; congruence).
      constructor; [exact Hxy|].
      eapply Forall_impl; [exact Hy|]. intros z Hz.
      eapply comes_before_trans; eauto.
    + constructor; [now constructor|].
      assert (Hxy : comes_before localeCompare x y)
        by (apply compareCities_not_Gt; congruence).
      constructor; [exact Hxy|].
      eapply Forall_impl; [exact Hy|]. intros z Hz.
      eapply comes_before_trans; eauto.
    + constructor; [now apply IH|].
      eapply Permutation_Forall; [apply insert_city_perm|].
      constructor; [|exact Hy]. now apply compareCities_Gt.
Qed.

Lemma sortCities_sorted l :
  Forall has_number l ->
  StronglySorted (comes_before localeCompare) (sortCities localeCompare l).
Proof.
  induction l as [|x l IH]; intros Hl; simpl; [constructor|].
  apply Forall_cons_iff in Hl as [Hx Hl].
  apply insert_city_sorted; auto.
  eapply Permutation_Forall; [apply sortCities_perm|exact Hl].
Qed.

(** C5. The list the assembler puts out is the input list reordered so
    that every city stands in front of all cities that are less polluted,
    and in front of those as polluted whose name does not sort before its
    own; the cities A (5), B (9), C (9) come out as B, C, A. *)
Theorem assembler_output_sorted (l : list EnrichedCity) :
  Forall has_number l ->
  localeCompare "B" "C" = Lt ->
  StronglySorted (comes_before localeCompare) (sortCities localeCompare l) /\
  Permutation l (sortCities localeCompare l) /\
  sortCities localeCompare [city "A" 5; city "B" 9; city "C" 9]
    = [city "B" 9; city "C" 9; city "A" 5].
Proof.
  intros Hl HBC. split; [now apply sortCities_sorted|].
  split; [apply sortCities_perm|].
  unfold sortCities, compareCities; simpl.
  unfold compareCities; simpl. rewrite HBC. reflexivity.
Qed.

End SortedOutput.

Lemma codeUnitCompare_asym a b :
  codeUnitCompare a b = Gt -> codeUnitCompare b a <> Gt.
Proof.
  unfold codeUnitCompare. intros H.
  rewrite String.compare_antisym, H. discriminate.
Qed.

Lemma codeUnitCompare_trans a b c :
  codeUnitCompare a b <> Gt -> codeUnitCompare b c <> Gt ->
  codeUnitCompare a c <> Gt.
Proof.
  unfold codeUnitCompare. revert b c.
  induction a as [|x a IH]; intros [|y b] [|z c]; simpl; try congruence.
  unfold Ascii.compare.
  destruct (N.compare_spec (N_of_ascii x) (N_of_ascii y)) as [Hxy|Hxy|Hxy];
    destruct (N.compare_spec (N_of_ascii y) (N_of_ascii z)) as [Hyz|Hyz|Hyz];
    try congruence; intros H1 H2.
  - rewrite Hxy, Hyz, N.compare_refl. eapply IH; eauto.
  - rewrite Hxy. apply N.compare_lt_iff in Hyz. rewrite Hyz. discriminate.
  - rewrite <- Hyz. apply N.compare_lt_iff in Hxy. rewrite Hxy. discriminate.
  - assert (Hxz : (N_of_ascii x < N_of_ascii z)%N) by lia.
    apply N.compare_lt_iff in Hxz. rewrite Hxz. discriminate.
Qed.

Lemma assembler_output_sorted_witness :
  StronglySorted (comes_before codeUnitCompare)
    (sortCities codeUnitCompare [city "A" 5; city "B" 9; city "C" 9]) /\
  Permutation [city "A" 5; city "B" 9; city "C" 9]
    (sortCities codeUnitCompare [city "A" 5; city "B" 9; city "C" 9]) /\
  sortCities codeUnitCompare [city "A" 5; city "B" 9; city "C" 9]
    = [city "B" 9; city "C" 9; city "A" 5].
Proof.
  apply (assembler_output_sorted codeUnitCompare
           codeUnitCompare_asym codeUnitCompare_trans
           [city "A" 5; city "B" 9; city "C" 9]).
  - repeat constructor.
  - reflexivity.
Defined.

(** ** Description resolver: the cascade *)


Lemma string_eqb_neq a b : string_eqb a b = false <-> a <> b.
Proof. unfold string_eqb. apply String.eqb_neq. Qed.

(** In a well-formed cache, what [cache.get] finds is truthy. *)
Lemma cache_lookup_truthy w key v :
  store_wf w -> cache_lookup w key = Some v -> truthy_cached (Some v) = true.
Proof.
  unfold cache_lookup. intros Hwf.
  destruct (store w !! key) as [e|] eqn:He; [|discriminate].
  destruct (entry_live (now w) e); [|discriminate].
  intros [= <-]. specialize (Hwf _ _ He).
  destruct (entry_value e) as [s| | |]; simpl; try reflexivity.
  apply negb_true_iff, string_eqb_neq. congruence.
Qed.

Lemma cache_set_wf key v ttl w :
  store_wf w -> v <> CvText "" -> store_wf (snd (cache_set key v ttl w)).
Proof.
  intros Hwf Hv k e. simpl. rewrite lookup_insert.
  case_decide as Hk.
  - intros [= <-]. exact Hv.
  - apply Hwf.
Qed.

(** The lookup service always answers, records its call and keeps the
    cache well formed. *)
Lemma fetchCityDescription_run env query w :
  exists wikiData w1,
    fetchCityDescription env query w = (Normal wikiData, w1) /\
    events w1 = events w ++ [EvWikiLookup query] /\
    (store_wf w -> store_wf w1).
Proof.
  unfold fetchCityDescription, mbind, M_bind, record_event, cache_get,
    request, mret, M_ret. simpl.
  match goal with
  | |- context [truthy_cached ?x] => destruct (truthy_cached x)
  end.
  - eexists _, _. split; [reflexivity|]. simpl. split; [reflexivity|].
    intros Hwf. exact Hwf.
  - simpl. destruct (wikipedia_api env (now w) query) as [[d t]|] eqn:Hapi.
    + eexists _, _. split; [reflexivity|]. simpl.
      rewrite app_nil_r. split; [reflexivity|].
      intros Hwf k e. unfold store_wf in Hwf. simpl. rewrite lookup_insert.
      case_decide; [intros [= <-]; discriminate|apply Hwf].
    + eexists _, _. split; [reflexivity|]. simpl.
      rewrite app_nil_r. split; [reflexivity|]. intros Hwf. exact Hwf.
Qed.

Lemma described_Some wikiData d t :
  described wikiData = Some (d, t) -> wikiData = Some (CvWiki d t) /\ d <> "".
Proof.
  destruct wikiData as [[s|d' t'| |]|]; simpl; try discriminate.
  destruct (string_eqb d' "") eqn:Hd; [discriminate|].
  intros [= <- <-]. split; [reflexivity|]. now apply string_eqb_neq.
Qed.

(** The loop over any list of candidates, from a well-formed cache: it
    returns, it follows the cascade, and the lookups it makes are those of
    the first [n] candidates, in order. *)
Lemma resolveQueries_cascade env o c l queries : forall w,
  store_wf w ->
  exists result w' n,
    resolveQueries env o c l queries w = (Normal result, w') /\
    Cascade env o c l queries w result w' /\
    (n <= length queries)%nat /\
    events w' = events w ++ map EvWikiLookup (take n queries) /\
    (result = None -> n = length queries).
Proof.
  induction queries as [|q rest IH]; intros w Hwf.
  - exists None, w, 0%nat. simpl. rewrite app_nil_r.
    repeat split; auto. constructor.
  - simpl. unfold mbind, M_bind, cache_get. simpl.
    fold (wiki_key q).
    destruct (cache_lookup w (wiki_key q)) as [v|] eqn:Hget.
    + rewrite (cache_lookup_truthy _ _ _ Hwf Hget).
      exists (Some v), w, 0%nat. simpl. rewrite app_nil_r.
      repeat split; try lia; try discriminate. now constructor.
    + simpl.
      destruct (fetchCityDescription_run env q w)
        as (wikiData & w1 & Hfetch & Hev & Hwf1).
      rewrite Hfetch. specialize (Hwf1 Hwf).
      destruct (described wikiData) as [[d t]|] eqn:Hdesc.
      * destruct (acceptsDescription o c l d t) eqn:Hacc.
        -- apply described_Some in Hdesc as [-> Hd].
           eexists _, _, 1%nat. split; [reflexivity|].
           split;
             [exact (cascade_accepted env o c l q rest w w1 d t
                       Hget Hfetch Hd Hacc)|].
           simpl. split; [lia|]. split; [now rewrite Hev|discriminate].
        -- destruct (IH w1 Hwf1) as (r & w' & n & Hrun & Hc & Hn & Hevs & Hnone).
           exists r, w', (S n). split; [exact Hrun|].
           split.
           { eapply cascade_next; [|exact Hc].
             split; [exact Hget|]. exists wikiData.
             split; [exact Hfetch|]. now rewrite Hdesc. }
           simpl. split; [lia|].
           split; [rewrite Hevs, Hev, <- app_assoc; reflexivity|].
           intros Hr. now rewrite (Hnone Hr).
      * destruct (IH w1 Hwf1) as (r & w' & n & Hrun & Hc & Hn & Hevs & Hnone).
        exists r, w', (S n). split; [exact Hrun|].
        split.
        { eapply cascade_next; [|exact Hc].
          split; [exact Hget|]. exists wikiData.
          split; [exact Hfetch|]. now rewrite Hdesc. }
        simpl. split; [lia|].
        split; [rewrite Hevs, Hev, <- app_assoc; reflexivity|].
        intros Hr. now rewrite (Hnone Hr).
Qed.


Lemma empty_world_wf : store_wf empty_world.
Proof. intros key e H. simpl in H. rewrite lookup_empty in H. discriminate. Qed.


(** The first candidate is accepted, and it is the only one looked up. *)
Example lodz_stops_at_first_candidate :
  fst (getWikipediaDescription lodz_env "Lodz" "PL" "Lodz" empty_world)
    = Normal (Some (CvText "Lodz is a city in central Poland.")) /\
  events (snd (getWikipediaDescription lodz_env "Lodz" "PL" "Lodz" empty_world))
    = [EvWikiLookup "Lodz, PL"].
Proof. split; reflexivity. Qed.

(** When no candidate is known, all four are looked up, in order. *)
Example unknown_city_tries_all_candidates :
  fst (getWikipediaDescription lodz_env "nowhere (x)" "PL" "Nowhere" empty_world)
    = Normal None /\
  events (snd (getWikipediaDescription lodz_env "nowhere (x)" "PL" "Nowhere"
                 empty_world))
    = [EvWikiLookup "nowhere (x), PL"; EvWikiLookup "Nowhere, PL";
       EvWikiLookup "nowhere (x)"; EvWikiLookup "Nowhere"].
Proof. split; reflexivity. Qed.

(** ** Idempotence of the lookup name *)

(** *** Characters *)

Lemma plain_space c : plain_char c = true -> is_space c = true -> c = " "%char.
Proof.
  unfold plain_char. intros H Hs. rewrite Hs in H. simpl in H.
  apply andb_true_iff in H as [_ H]. now apply Ascii.eqb_eq.
Qed.

Lemma plain_not_terminator c :
  plain_char c = true -> is_line_terminator c = false.
Proof. destruct c as [[] [] [] [] [] [] [] []]; vm_compute; congruence. Qed.

Lemma space_is_space c : ascii_eqb c " " = true -> is_space c = true.
Proof. intros H. apply Ascii.eqb_eq in H. now subst. Qed.

Lemma upper_upper c : toUpperChar (toUpperChar c) = toUpperChar c.
Proof. destruct c as [[] [] [] [] [] [] [] []]; reflexivity. Qed.

Lemma lower_lower c : toLowerChar (toLowerChar c) = toLowerChar c.
Proof. destruct c as [[] [] [] [] [] [] [] []]; reflexivity. Qed.

Lemma upper_is c d :
  (d = " " \/ d = "(" \/ d = ")")%char ->
  ascii_eqb (toUpperChar c) d = ascii_eqb c d.
Proof.
  intros [-> | [-> | ->]]; destruct c as [[] [] [] [] [] [] [] []]; reflexivity.
Qed.

Lemma lower_is c d :
  (d = " " \/ d = "(" \/ d = ")")%char ->
  ascii_eqb (toLowerChar c) d = ascii_eqb c d.
Proof.
  intros [-> | [-> | ->]]; destruct c as [[] [] [] [] [] [] [] []]; reflexivity.
Qed.

Lemma upper_plain c : plain_char c = true -> plain_char (toUpperChar c) = true.
Proof. destruct c as [[] [] [] [] [] [] [] []]; vm_compute; congruence. Qed.

Lemma lower_plain c : plain_char c = true -> plain_char (toLowerChar c) = true.
Proof. destruct c as [[] [] [] [] [] [] [] []]; vm_compute; congruence. Qed.

(** *** Trimming *)

Lemma skip_spaces_sublist l : sublist (skip_spaces l) l.
Proof.
  induction l as [|c r IH]; simpl; [constructor|].
  destruct (is_space c); [now constructor|reflexivity].
Qed.

Lemma trim_end_sublist l : sublist (trim_end l) l.
Proof.
  induction l as [|c r IH]; simpl; [constructor|].
  destruct (trim_end r) as [|x r'] eqn:Hr.
  - destruct (is_space c).
    + apply sublist_nil_l.
    + constructor. apply sublist_nil_l.
  - now constructor.
Qed.

Lemma trim_chars_sublist l : sublist (trim_chars l) l.
Proof.
  unfold trim_chars. etransitivity; [apply trim_end_sublist|].
  apply skip_spaces_sublist.
Qed.

Lemma skip_spaces_head l c r :
  skip_spaces l = c :: r -> is_space c = false.
Proof.
  induction l as [|x l IH]; simpl; [discriminate|].
  destruct (is_space x) eqn:Hx; [exact IH|]. intros [= <- <-]. exact Hx.
Qed.

Lemma skip_spaces_fixed c r : is_space c = false -> skip_spaces (c :: r) = c :: r.
Proof. intros H. simpl. now rewrite H. Qed.

Lemma trim_end_head c r :
  is_space c = false -> exists r', trim_end (c :: r) = c :: r'.
Proof.
  intros H. simpl. destruct (trim_end r); rewrite ?H; eauto.
Qed.

Lemma trim_end_idem l : trim_end (trim_end l) = trim_end l.
Proof.
  induction l as [|c r IH]; simpl; [reflexivity|].
  destruct (trim_end r) as [|x r'] eqn:Hr.
  - destruct (is_space c) eqn:Hc; simpl; [reflexivity|]. now rewrite Hc.
  - simpl in *. rewrite IH. reflexivity.
Qed.

(** Trimming what is trimmed changes nothing. *)
Lemma trim_chars_idem l : trim_chars (trim_chars l) = trim_chars l.
Proof.
  unfold trim_chars.
  destruct (skip_spaces l) as [|c r] eqn:Hs; [reflexivity|].
  pose proof (skip_spaces_head _ _ _ Hs) as Hc.
  destruct (trim_end_head c r Hc) as [r' Hr']. rewrite Hr'.
  rewrite (skip_spaces_fixed _ _ Hc), <- Hr'. apply trim_end_idem.
Qed.

Lemma plain_sublist (l1 l2 : chars) :
  sublist l1 l2 -> plain l2 -> plain l1.
Proof.
  unfold plain. induction 1 as [|x l1 l2 _ IH|x l1 l2 _ IH]; intros H.
  - constructor.
  - apply Forall_cons_iff in H as [Hx H]. constructor; auto.
  - apply Forall_cons_iff in H as [_ H]. auto.
Qed.

(** *** Capitalising the words *)

Lemma split_chars_nonempty sep l : split_chars sep l <> [].
Proof.
  destruct l as [|c r]; simpl; [discriminate|].
  destruct (ascii_eqb c sep); [discriminate|].
  destruct (split_chars sep r); discriminate.
Qed.

Lemma join_chars_cons sep x w rest :
  join_chars sep ((x :: w) :: rest) = x :: join_chars sep (w :: rest).
Proof. destruct rest; reflexivity. Qed.

(** The word in front is capitalised only when it begins at [l]. *)
Lemma title_from_words l : forall (start : bool) (w : chars) (ws : list chars),
  split_chars " " l = w :: ws ->
  join_chars " "
    ((if start then capitalize w else map toLowerChar w) :: map capitalize ws)
  = title_from start l.
Proof.
  induction l as [|c r IH]; intros start w ws; simpl.
  - intros [= <- <-]. destruct start; reflexivity.
  - destruct (ascii_eqb c " ") eqn:Hc.
    + intros [= <- <-].
      destruct (split_chars " " r) as [|w' ws'] eqn:Hr;
        [now apply split_chars_nonempty in Hr|].
      apply Ascii.eqb_eq in Hc. subst c.
      specialize (IH true w' ws' eq_refl). simpl in IH.
      destruct start; simpl; now rewrite IH.
    + destruct (split_chars " " r) as [|w' ws'] eqn:Hr;
        [now apply split_chars_nonempty in Hr|].
      intros [= <- <-].
      specialize (IH false w' ws' eq_refl).
      simpl in IH. rewrite <- IH.
      destruct start; simpl; destruct (map capitalize ws'); reflexivity.
Qed.

Lemma title_from_spec l :
  join_chars " " (map capitalize (split_chars " " l)) = title_from true l.
Proof.
  destruct (split_chars " " l) as [|w ws] eqn:Hs;
    [now apply split_chars_nonempty in Hs|].
  apply (title_from_words l true w ws Hs).
Qed.

Lemma titled_title_from l : forall start,
  titled start (title_from start l) = true.
Proof.
  induction l as [|c r IH]; intros start; simpl; [reflexivity|].
  destruct (ascii_eqb c " ") eqn:Hc; simpl.
  - rewrite Hc. apply IH.
  - destruct start.
    + rewrite upper_is, Hc by auto. rewrite upper_upper.
      unfold ascii_eqb at 1. rewrite Ascii.eqb_refl. apply IH.
    + rewrite lower_is, Hc by auto. rewrite lower_lower.
      unfold ascii_eqb at 1. rewrite Ascii.eqb_refl. apply IH.
Qed.

Lemma titled_fixed l : forall start,
  titled start l = true -> title_from start l = l.
Proof.
  induction l as [|c r IH]; intros start; simpl; [reflexivity|].
  destruct (ascii_eqb c " ").
  - intros H. now rewrite IH.
  - intros H. apply andb_true_iff in H as [Hc H].
    apply Ascii.eqb_eq in Hc. rewrite Hc. now rewrite IH.
Qed.

Lemma titled_skip_spaces l :
  plain l -> titled true l = true -> titled true (skip_spaces l) = true.
Proof.
  induction l as [|c r IH]; intros Hp; [reflexivity|].
  apply Forall_cons_iff in Hp as [Hc Hp]. simpl.
  destruct (is_space c) eqn:Hs; [|intros H; exact H].
  rewrite (plain_space _ Hc Hs). simpl. now apply IH.
Qed.

Lemma titled_trim_end l : forall start,
  titled start l = true -> titled start (trim_end l) = true.
Proof.
  induction l as [|c r IH]; intros start; simpl; [reflexivity|].
  destruct (ascii_eqb c " ") eqn:Hc.
  - intros H. apply IH in H.
    destruct (trim_end r) as [|x r'] eqn:Hr.
    + rewrite (space_is_space _ Hc). reflexivity.
    + simpl. rewrite Hc. exact H.
  - intros H. apply andb_true_iff in H as [Hcc H]. apply IH in H.
    destruct (trim_end r) as [|x r'] eqn:Hr.
    + destruct (is_space c); [reflexivity|]. simpl. rewrite Hc, Hcc.
      reflexivity.
    + simpl. rewrite Hc, Hcc. exact H.
Qed.

Lemma titled_collapse l : forall in_run start,
  plain l -> (in_run = true -> start = true) ->
  titled start l = true -> titled start (collapse_from in_run l) = true.
Proof.
  induction l as [|c r IH]; intros in_run start Hp Hrun; [reflexivity|].
  apply Forall_cons_iff in Hp as [Hc Hp]. simpl.
  destruct (is_space c) eqn:Hs.
  - rewrite (plain_space _ Hc Hs). simpl. intros H.
    destruct in_run.
    + rewrite (Hrun eq_refl). now apply IH.
    + simpl. now apply IH.
  - destruct (ascii_eqb c " ") eqn:Hsp;
      [apply space_is_space in Hsp; congruence|].
    intros H. apply andb_true_iff in H as [Hcc H].
    simpl. rewrite Hsp, Hcc. simpl. apply IH; auto; discriminate.
Qed.

Lemma plain_title_from l : forall start,
  plain l -> plain (title_from start l).
Proof.
  unfold plain.
  induction l as [|c r IH]; intros start Hp; simpl; [constructor|].
  apply Forall_cons_iff in Hp as [Hc Hp].
  destruct (ascii_eqb c " "); constructor; auto.
  destruct start; [now apply upper_plain|now apply lower_plain].
Qed.

Lemma plain_collapse l : forall in_run,
  plain l -> plain (collapse_from in_run l).
Proof.
  unfold plain.
  induction l as [|c r IH]; intros in_run Hp; simpl; [constructor|].
  apply Forall_cons_iff in Hp as [Hc Hp].
  destruct (is_space c); [destruct in_run|]; auto.
Qed.

(** *** Collapsing the white space *)

Lemma single_spaced_collapse l : forall in_run,
  single_spaced in_run (collapse_from in_run l) = true.
Proof.
  induction l as [|c r IH]; intros in_run; simpl; [reflexivity|].
  destruct (is_space c) eqn:Hs.
  - destruct in_run; [apply IH|]. simpl. apply IH.
  - simpl. rewrite Hs. apply IH.
Qed.

Lemma single_spaced_fixed l : forall in_run,
  single_spaced in_run l = true -> collapse_from in_run l = l.
Proof.
  induction l as [|c r IH]; intros in_run; simpl; [reflexivity|].
  destruct (is_space c).
  - intros H. apply andb_true_iff in H as [H Hr].
    apply andb_true_iff in H as [Hrun Hc].
    apply negb_true_iff in Hrun. subst in_run.
    apply Ascii.eqb_eq in Hc. subst c. now rewrite IH.
  - intros H. now rewrite IH.
Qed.

Lemma single_spaced_weaken l :
  single_spaced true l = true -> single_spaced false l = true.
Proof.
  destruct l as [|c r]; simpl; [reflexivity|].
  destruct (is_space c); [discriminate|auto].
Qed.

Lemma single_spaced_skip_spaces l : forall after_space,
  single_spaced after_space l = true ->
  single_spaced false (skip_spaces l) = true.
Proof.
  induction l as [|c r IH]; intros after_space; simpl; [reflexivity|].
  destruct (is_space c) eqn:Hs.
  - intros H. apply andb_true_iff in H as [_ H]. now apply IH in H.
  - intros H. simpl. now rewrite Hs.
Qed.

Lemma single_spaced_trim_end l : forall after_space,
  single_spaced after_space l = true ->
  single_spaced after_space (trim_end l) = true.
Proof.
  induction l as [|c r IH]; intros after_space; simpl; [reflexivity|].
  destruct (is_space c) eqn:Hs.
  - intros H. apply andb_true_iff in H as [H Hr]. apply IH in Hr.
    destruct (trim_end r) as [|x r'] eqn:Hr'; [reflexivity|].
    simpl. rewrite Hs, H. exact Hr.
  - intros H. apply IH in H.
    destruct (trim_end r) as [|x r'] eqn:Hr'; simpl; rewrite Hs; auto.
Qed.

(** *** Parenthesised text *)

Lemma has_close_sublist (l1 l2 : chars) :
  sublist l1 l2 -> has_close l1 = true -> has_close l2 = true.
Proof.
  unfold has_close. induction 1 as [|x l1 l2 _ IH|x l1 l2 _ IH]; simpl.
  - discriminate.
  - intros H. apply orb_true_iff in H as [H|H].
    + now rewrite H.
    + rewrite (IH H). apply orb_true_r.
  - intros H. rewrite (IH H). apply orb_true_r.
Qed.

Lemma has_close_sublist_false (l1 l2 : chars) :
  sublist l1 l2 -> has_close l2 = false -> has_close l1 = false.
Proof.
  intros Hs H. destruct (has_close l1) eqn:H1; [|reflexivity].
  apply (has_close_sublist _ _ Hs) in H1. congruence.
Qed.

Lemma tail_sublist (l1 l2 : chars) :
  sublist l1 l2 -> sublist (tail l1) (tail l2).
Proof.
  induction 1 as [|x l1 l2 H IH|x l1 l2 H IH]; simpl.
  - constructor.
  - exact H.
  - destruct l1 as [|y l1]; [apply sublist_nil_l|].
    simpl in *. apply sublist_cons_l in H as (k1 & k2 & -> & H).
    apply sublist_inserts_l. destruct k1; simpl; now constructor.
Qed.

Lemma viable_sublist (l1 l2 : chars) :
  sublist l1 l2 -> viable l1 = true -> viable l2 = true.
Proof.
  induction 1 as [|x l1 l2 H IH|x l1 l2 H IH]; simpl.
  - discriminate.
  - intros Hv. apply orb_true_iff in Hv as [Hv|Hv].
    + apply andb_true_iff in Hv as [Hx Hc]. rewrite Hx. simpl.
      rewrite (has_close_sublist _ _ (tail_sublist _ _ H) Hc). reflexivity.
    + rewrite (IH Hv). apply orb_true_r.
  - intros Hv. rewrite (IH Hv). apply orb_true_r.
Qed.

Lemma viable_sublist_false (l1 l2 : chars) :
  sublist l1 l2 -> viable l2 = false -> viable l1 = false.
Proof.
  intros Hs H. destruct (viable l1) eqn:H1; [|reflexivity].
  apply (viable_sublist _ _ Hs) in H1. congruence.
Qed.

Lemma has_close_cons c r :
  has_close (c :: r) = false -> has_close r = false.
Proof. unfold has_close. simpl. intros H. now apply orb_false_iff in H. Qed.

Lemma no_close_not_viable l : has_close l = false -> viable l = false.
Proof.
  induction l as [|c r IH]; simpl; [reflexivity|].
  intros H. apply has_close_cons in H. rewrite (IH H).
  rewrite (has_close_sublist_false (tail r) r);
    [|apply sublist_drop with (i := 1%nat)|exact H].
  now rewrite andb_false_r.
Qed.

Lemma has_close_title_from l : forall start,
  has_close (title_from start l) = has_close l.
Proof.
  unfold has_close.
  induction l as [|c r IH]; intros start; simpl; [reflexivity|].
  destruct (ascii_eqb c " "); simpl; [now rewrite IH|].
  rewrite IH. f_equal.
  destruct start; [apply upper_is|apply lower_is]; auto.
Qed.

Lemma viable_title_from l : forall start,
  viable (title_from start l) = viable l.
Proof.
  induction l as [|c r IH]; intros start; simpl; [reflexivity|].
  assert (Ht : forall s, has_close (tail (title_from s r)) = has_close (tail r)).
  { intros s. destruct r as [|x r']; [reflexivity|]. simpl.
    destruct (ascii_eqb x " "); simpl; apply has_close_title_from. }
  destruct (ascii_eqb c " ") eqn:Hc; simpl.
  - rewrite IH, Ht. reflexivity.
  - rewrite IH, Ht. f_equal. f_equal.
    destruct start; [apply upper_is|apply lower_is]; auto.
Qed.

Lemma collapse_sublist l : forall in_run,
  plain l -> sublist (collapse_from in_run l) l.
Proof.
  induction l as [|c r IH]; intros in_run Hp; simpl; [constructor|].
  apply Forall_cons_iff in Hp as [Hc Hp].
  destruct (is_space c) eqn:Hs.
  - rewrite (plain_space _ Hc Hs).
    destruct in_run; constructor; now apply IH.
  - constructor. now apply IH.
Qed.

Lemma strip_parens_from_sublist l : forall skip,
  sublist (strip_parens_from skip l) l.
Proof.
  induction l as [|c r IH]; intros skip; simpl; [constructor|].
  destruct skip as [|k]; [|constructor; apply IH].
  destruct (paren_match (c :: r)) as [[|k]|]; constructor; apply IH.
Qed.

Lemma strip_parens_from_drop l : forall skip,
  strip_parens_from skip l = strip_parens_from 0 (drop skip l).
Proof.
  induction l as [|c r IH]; intros [|k]; try reflexivity.
  simpl strip_parens_from at 1. rewrite IH. reflexivity.
Qed.

Lemma line_of_plain l : plain l -> line_of l = l.
Proof.
  induction l as [|c r IH]; intros Hp; simpl; [reflexivity|].
  apply Forall_cons_iff in Hp as [Hc Hp].
  rewrite (plain_not_terminator _ Hc). now rewrite IH.
Qed.

(** [last_close] finds the last ")" behind the first [need] characters. *)
Lemma last_close_None l : forall need,
  last_close need l = None -> has_close (drop need l) = false.
Proof.
  unfold has_close.
  induction l as [|c r IH]; intros need; simpl.
  - now rewrite drop_nil.
  - destruct (last_close (pred need) r) as [n|] eqn:Hr; [discriminate|].
    apply IH in Hr. destruct need as [|need]; simpl in *.
    + rewrite drop_0 in Hr. rewrite Hr, andb_true_r, orb_false_r.
      destruct (ascii_eqb c ")") eqn:Hc; [discriminate|].
      intros _. reflexivity.
    + intros _. exact Hr.
Qed.

Lemma last_close_Some l : forall need n,
  last_close need l = Some n ->
  has_close (drop need l) = true /\ has_close (drop n l) = false.
Proof.
  unfold has_close.
  induction l as [|c r IH]; intros need n; simpl; [discriminate|].
  destruct (last_close (pred need) r) as [m|] eqn:Hr.
  - intros [= <-]. destruct (IH _ _ Hr) as [H1 H2]. simpl. split; [|exact H2].
    destruct need as [|need]; simpl in *; [|exact H1].
    rewrite drop_0 in H1. rewrite H1. apply orb_true_r.
  - apply last_close_None in Hr. unfold has_close in Hr.
    destruct (ascii_eqb c ")") eqn:Hc; simpl; [|discriminate].
    destruct need as [|need]; simpl; [|discriminate].
    intros [= <-]. simpl in *. rewrite drop_0 in *. split; [|exact Hr].
    now rewrite Hc.
Qed.

Lemma drop_to_skip_spaces l :
  drop (length l - length (skip_spaces l)) l = skip_spaces l.
Proof.
  induction l as [|c r IH]; simpl; [reflexivity|].
  destruct (is_space c).
  - pose proof (sublist_length _ _ (skip_spaces_sublist r)) as Hlen.
    replace (S (length r) - length (skip_spaces r))%nat
      with (S (length r - length (skip_spaces r))) by lia.
    simpl. exact IH.
  - simpl. now rewrite Nat.sub_diag.
Qed.

Lemma open_not_space : is_space "(" = false.
Proof. reflexivity. Qed.

(** On a single line, a match swallows the last ")". *)
Lemma paren_match_Some l k :
  plain l -> paren_match l = Some k ->
  (1 <= k)%nat /\ has_close (drop k l) = false /\ viable l = true.
Proof.
  intros Hp. unfold paren_match.
  pose proof (drop_to_skip_spaces l) as Hlead.
  pose proof (plain_sublist _ _ (skip_spaces_sublist l) Hp) as Hps.
  destruct (skip_spaces l) as [|x r] eqn:Hs; [discriminate|].
  destruct (Ascii.eqb_spec x "(") as [->|Hx].
  2:{ destruct x as [[] [] [] [] [] [] [] []]; try discriminate.
      now contradiction Hx. }
  apply Forall_cons_iff in Hps as [_ Hpr].
  rewrite (line_of_plain _ Hpr).
  destruct (last_close 1 r) as [n|] eqn:Hn; [|discriminate].
  intros [= <-]. apply last_close_Some in Hn as [H1 H2].
  split; [lia|]. split.
  - replace (length l - length ("("%char :: r) + 1 + n
             + (length (drop n r) - length (skip_spaces (drop n r))))%nat
      with ((length (drop n r) - length (skip_spaces (drop n r)))
            + (n + (1 + (length l - length ("("%char :: r)))))%nat by lia.
    rewrite <- !drop_drop. simpl length in Hlead. rewrite Hlead.
    change (drop 1 ("("%char :: r)) with r.
    rewrite drop_to_skip_spaces.
    eapply has_close_sublist_false; [apply skip_spaces_sublist|exact H2].
  - apply (viable_sublist (skip_spaces l) l (skip_spaces_sublist l)).
    rewrite Hs. simpl. destruct r as [|y r']; simpl in *; [discriminate|].
    rewrite drop_0 in H1. now rewrite H1.
Qed.

Lemma paren_match_None_open r :
  plain r -> paren_match ("("%char :: r) = None -> has_close (tail r) = false.
Proof.
  intros Hp. unfold paren_match.
  rewrite (skip_spaces_fixed _ _ open_not_space), (line_of_plain _ Hp).
  destruct (last_close 1 r) as [n|] eqn:Hn; [discriminate|].
  intros _. apply last_close_None in Hn. destruct r; exact Hn.
Qed.

(** Text without a "(" that has a ")" further on is left alone. *)
Lemma strip_parens_fixed l :
  plain l -> viable l = false -> strip_parens l = l.
Proof.
  unfold strip_parens.
  induction l as [|c r IH]; intros Hp Hv; [reflexivity|].
  simpl strip_parens_from.
  destruct (paren_match (c :: r)) as [k|] eqn:Hm.
  - apply (paren_match_Some _ _ Hp) in Hm as (_ & _ & Hm). congruence.
  - apply Forall_cons_iff in Hp as [_ Hp]. simpl in Hv.
    apply orb_false_iff in Hv as [_ Hv]. now rewrite IH.
Qed.

(** On a single line, nothing is left to strip after stripping. *)
Lemma strip_parens_not_viable l :
  plain l -> viable (strip_parens l) = false.
Proof.
  unfold strip_parens.
  induction l as [|c r IH]; intros Hp; [reflexivity|].
  pose proof Hp as Hpl. apply Forall_cons_iff in Hp as [Hc Hp].
  assert (Hkeep : paren_match (c :: r) = None ->
                  viable (c :: strip_parens_from 0 r) = false).
  { intros Hm. simpl. rewrite (IH Hp), orb_false_r.
    destruct (ascii_eqb c "(") eqn:Hopen; [|reflexivity]. simpl.
    apply Ascii.eqb_eq in Hopen. subst c.
    eapply has_close_sublist_false;
      [apply tail_sublist, strip_parens_from_sublist|].
    now apply paren_match_None_open. }
  simpl strip_parens_from.
  destruct (paren_match (c :: r)) as [[|k]|] eqn:Hm; [| |now apply Hkeep].
  { destruct (paren_match_Some _ _ Hpl Hm) as (Hk & _). lia. }
  destruct (paren_match_Some _ _ Hpl Hm) as (_ & Hclose & _).
  simpl in Hclose. rewrite strip_parens_from_drop.
  assert (Hpd : plain (drop k r))
    by (eapply plain_sublist; [apply sublist_drop|exact Hp]).
  fold (strip_parens (drop k r)).
  rewrite (strip_parens_fixed _ Hpd (no_close_not_viable _ Hclose)).
  now apply no_close_not_viable.
Qed.

(** *** The lookup name *)

(** What holds of every lookup name made from single-line ASCII text. *)
Lemma lookup_chars_shape l :
  plain l ->
  plain (lookup_chars l) /\
  viable (lookup_chars l) = false /\
  titled true (lookup_chars l) = true /\
  single_spaced false (lookup_chars l) = true /\
  trim_chars (lookup_chars l) = lookup_chars l.
Proof.
  intros Hp. unfold lookup_chars.
  set (a := trim_chars (strip_parens l)).
  rewrite title_from_spec.
  set (b := trim_chars (title_from true a)).
  set (x := collapse_spaces b).
  assert (Hpa : plain a).
  { eapply plain_sublist; [apply trim_chars_sublist|].
    eapply plain_sublist; [apply strip_parens_from_sublist|exact Hp]. }
  assert (Hpt : plain (title_from true a)) by now apply plain_title_from.
  assert (Hpb : plain b)
    by (eapply plain_sublist; [apply trim_chars_sublist|exact Hpt]).
  assert (Hpx : plain x) by now apply plain_collapse.
  assert (Hva : viable a = false).
  { eapply viable_sublist_false; [apply trim_chars_sublist|].
    now apply strip_parens_not_viable. }
  assert (Hvb : viable b = false).
  { eapply viable_sublist_false; [apply trim_chars_sublist|].
    now rewrite viable_title_from. }
  assert (Hvx : viable x = false)
    by (eapply viable_sublist_false; [now apply collapse_sublist|exact Hvb]).
  assert (Htb : titled true b = true).
  { apply titled_trim_end, titled_skip_spaces; [exact Hpt|].
    apply titled_title_from. }
  assert (Htx : titled true x = true)
    by (apply titled_collapse; auto; discriminate).
  split; [eapply plain_sublist; [apply trim_chars_sublist|exact Hpx]|].
  split; [eapply viable_sublist_false; [apply trim_chars_sublist|exact Hvx]|].
  split; [now apply titled_trim_end, titled_skip_spaces|].
  split; [|apply trim_chars_idem].
  apply single_spaced_trim_end.
  apply (single_spaced_skip_spaces _ false).
  apply single_spaced_collapse.
Qed.

(** Text of that shape is its own lookup name. *)
Lemma lookup_chars_fixed l :
  plain l -> viable l = false -> titled true l = true ->
  single_spaced false l = true -> trim_chars l = l ->
  lookup_chars l = l.
Proof.
  intros Hp Hv Ht Hs Htrim. unfold lookup_chars.
  rewrite (strip_parens_fixed _ Hp Hv), Htrim, title_from_spec.
  rewrite (titled_fixed _ _ Ht), Htrim.
  unfold collapse_spaces. rewrite (single_spaced_fixed _ _ Hs). exact Htrim.
Qed.

Lemma to_of_chars l : to_chars (of_chars l) = l.
Proof. apply list_ascii_of_string_of_list_ascii. Qed.

Lemma forallb_plain l : forallb plain_char l = true -> plain l.
Proof.
  unfold plain. induction l as [|c r IH]; simpl; intros H; constructor.
  - now apply andb_true_iff in H.
  - apply IH. now apply andb_true_iff in H.
Qed.

(** The lookup name of a plain name is trimmed and is its own lookup
    name. *)
Lemma deriveLookupName_fixed s :
  forallb plain_char (to_chars s) = true ->
  trim (deriveLookupName (trim s)) = deriveLookupName (trim s) /\
  deriveLookupName (deriveLookupName (trim s)) = deriveLookupName (trim s).
Proof.
  intros Hs. apply forallb_plain in Hs.
  unfold deriveLookupName, trim. rewrite !to_of_chars.
  assert (Hp : plain (trim_chars (to_chars s)))
    by (eapply plain_sublist; [apply trim_chars_sublist|exact Hs]).
  destruct (lookup_chars_shape _ Hp) as (H1 & H2 & H3 & H4 & H5).
  split; [now rewrite H5|].
  now rewrite lookup_chars_fixed.
Qed.

(** C4 as stated fails: a tab inside the name is turned into a space
    only after the words were capitalised, so the second pass capitalises
    a word the first one did not see. *)
Lemma lookup_name_not_idempotent :
  ~ (forall r n,
       normalizeCityData (Some r) = Normal (Some n) ->
       exists n',
         normalizeCityData (Some (rewrap r n)) = Normal (Some n') /\
         lookupName n' = lookupName n).
Proof.
  intros H.
  destruct (H tab_record
              {| originalName := tab_name; lookupName := "A b";
                 country := "PL"; pollution := Finite (7 # 1) |} eq_refl)
    as (n' & Hrun & Hname).
  assert (Hn : n' = normalized_of (rewrap tab_record
                 {| originalName := tab_name; lookupName := "A b";
                    country := "PL"; pollution := Finite (7 # 1) |})).
  { rewrite normalizeCityData_run in Hrun. vm_compute in Hrun.
    vm_compute. congruence. }
  rewrite Hn in Hname. vm_compute in Hname. congruence.
Qed.

(** C4 (amended). For a raw record that normalization accepts and whose
    name is made of ASCII characters with no white space other than the
    space, normalizing the record that carries the produced lookup name
    in place of the name, with the same country and pollution, is
    accepted too and gives the same lookup name. *)
Theorem lookup_name_idempotent r s n :
  raw_name r = JsStr s ->
  forallb plain_char (to_chars s) = true ->
  normalizeCityData (Some r) = Normal (Some n) ->
  exists n',
    normalizeCityData (Some (rewrap r n)) = Normal (Some n') /\
    lookupName n' = lookupName n.
Proof.
  intros Hname Hplain Hrun.
  destruct (deriveLookupName_fixed s Hplain) as [Htrim Hfix].
  assert (Hacc : (exists text, ToString (raw_pollution r) = Normal text) /\
                 rejects (Some r) = false /\ n = normalized_of r).
  { rewrite normalizeCityData_run in Hrun.
    destruct (ToString (raw_pollution r)) as [text|e] eqn:Hp.
    - replace (unreadable_pollution (Some r)) with false in Hrun
        by (unfold unreadable_pollution; rewrite Hp;
            now rewrite andb_false_r).
      cbv beta delta [spec_normalize] in Hrun.
      destruct (rejects (Some r)); [discriminate|].
      split; [eauto|]. split; [reflexivity|congruence].
    - exfalso. revert Hrun.
      cbv beta delta [spec_normalize unreadable_pollution rejects
                      parsed_pollution parseFloat]. cbv beta iota zeta.
      unfold mbind, Completion_bind. rewrite Hp.
      destruct (missing_or_blank (raw_name r)); [discriminate|].
      destruct (missing_or_blank (raw_country r)); discriminate. }
  destruct Hacc as ([text Hp] & Hrej & ->).
  exists (normalized_of (rewrap r (normalized_of r))).
  assert (Hl : lookupName (normalized_of r) = deriveLookupName (trim s)).
  { unfold normalized_of, text_or_empty, field_text.
    cbn [lookupName]. now rewrite Hname. }
  assert (Hl' : lookupName (normalized_of (rewrap r (normalized_of r)))
                = deriveLookupName (trim s)).
  { unfold normalized_of at 1. unfold rewrap, text_or_empty, field_text.
    cbn [lookupName raw_name]. now rewrite Hl, Htrim, Hfix. }
  split; [|now rewrite Hl, Hl'].
  rewrite normalizeCityData_run.
  replace (unreadable_pollution (Some (rewrap r (normalized_of r))))
    with false
    by (unfold unreadable_pollution, rewrap; cbn [raw_pollution];
        rewrite Hp; now rewrite andb_false_r).
  cbv beta delta [spec_normalize].
  assert (Hrej' : rejects (Some (rewrap r (normalized_of r))) = false).
  { revert Hrej. unfold rejects, rewrap, missing_or_blank, text_or_empty,
      field_text.
    cbn [raw_name raw_country raw_pollution]. rewrite Hl, Hname.
    rewrite Htrim, Hfix. intros Hrej.
    repeat (apply orb_false_iff in Hrej as [Hrej ?]).
    repeat match goal with H : _ = false |- _ => rewrite H end.
    reflexivity. }
  now rewrite Hrej'.
Qed.

Lemma lookup_name_idempotent_witness :
  exists n',
    normalizeCityData (Some (rewrap warsaw_record warsaw_city))
      = Normal (Some n') /\
    lookupName n' = lookupName warsaw_city.
Proof.
  apply (lookup_name_idempotent warsaw_record "wArSAW (Capital)" warsaw_city).
  - reflexivity.
  - reflexivity.
  - reflexivity.
Defined.

(** * Further properties of the services *)

(** ** Auth service *)

(** Whatever its outcome, the login exchange sends exactly one request
    and writes no cache entry but the token's. *)
Lemma login_effects env w r w' :
  login env w = (r, w') ->
  events w' = events w ++ [EvLogin] /\
  now w' = now w + latency env (now w) /\
  forall key, key <> AUTH_TOKEN_CACHE_KEY -> store w' !! key = store w !! key.
Proof.
  destruct r as [token|e]; intros Hrun.
  - apply login_normal in Hrun as (d & n & _ & _ & _ & _ & _ & ->).
    simpl. repeat split. intros key Hkey. now rewrite lookup_insert_ne.
  - unfold login, post_login, mbind, M_bind, request, throw, mret, M_ret,
      clock, lift_completion in Hrun.
    destruct (login_api env (now w)) as [[d|]|st]; simpl in Hrun.
    + destruct (negb (truthy (login_token d)) || is_undefined (login_expiresIn d));
        [injection Hrun as _ <-; simpl; auto|].
      destruct (parseInt10 (login_expiresIn d)) as [[n|]|ex];
        [|injection Hrun as _ <-; simpl; auto
         |injection Hrun as _ <-; simpl; auto].
      destruct (n <=? 0); [injection Hrun as _ <-; simpl; auto|].
      destruct (n - TOKEN_REFRESH_BUFFER <=? 0); simpl in Hrun; discriminate.
    + injection Hrun as _ <-; simpl; auto.
    + injection Hrun as _ <-; simpl; auto.
Qed.

(** getAuthToken sends at most one login request: none when the cache
    holds a usable token, which it then returns without touching
    anything, and exactly one when it does not; and it leaves every cache
    entry but the token's alone. *)
Theorem getAuthToken_effects env w r w' :
  getAuthToken env w = (r, w') ->
  (events w' = events w \/ events w' = events w ++ [EvLogin]) /\
  (forall token,
     cached_token (cache_lookup w AUTH_TOKEN_CACHE_KEY) (now w) = Some token ->
     r = Normal token /\ w' = w /\ events w' = events w) /\
  (cached_token (cache_lookup w AUTH_TOKEN_CACHE_KEY) (now w) = None ->
   events w' = events w ++ [EvLogin]) /\
  forall key, key <> AUTH_TOKEN_CACHE_KEY -> store w' !! key = store w !! key.
Proof.
  intros Hrun.
  destruct (cached_token (cache_lookup w AUTH_TOKEN_CACHE_KEY) (now w))
    as [token|] eqn:Hc.
  - rewrite (getAuthToken_hit _ _ _ Hc) in Hrun. injection Hrun as <- <-.
    split; [now left|].
    split; [intros token' [= <-]; repeat split; reflexivity|].
    split; [discriminate|reflexivity].
  - rewrite getAuthToken_miss in Hrun by exact Hc. unfold try_catch in Hrun.
    destruct (login env w) as [[tok|e] w1] eqn:Hlogin.
    + injection Hrun as _ <-.
      destruct (login_effects _ _ _ _ Hlogin) as (Hev & _ & Hst).
      split; [now right|]. split; [discriminate|].
      split; [intros _; exact Hev|exact Hst].
    + destruct (login_failure_throws e w1) as [m Hm]. rewrite Hm in Hrun.
      injection Hrun as _ <-.
      destruct (login_effects _ _ _ _ Hlogin) as (Hev & _ & Hst).
      split; [now right|]. split; [discriminate|].
      split; [intros _; exact Hev|exact Hst].
Qed.

Lemma getAuthToken_effects_witness :
  (events short_expiry_world = events empty_world \/
   events short_expiry_world = events empty_world ++ [EvLogin]) /\
  (forall token,
     cached_token (cache_lookup empty_world AUTH_TOKEN_CACHE_KEY)
       (now empty_world) = Some token ->
     Normal (JsStr "t0k3n") = Normal token /\
     short_expiry_world = empty_world /\
     events short_expiry_world = events empty_world) /\
  (cached_token (cache_lookup empty_world AUTH_TOKEN_CACHE_KEY)
     (now empty_world) = None ->
   events short_expiry_world = events empty_world ++ [EvLogin]) /\
  forall key, key <> AUTH_TOKEN_CACHE_KEY ->
              store short_expiry_world !! key = store empty_world !! key.
Proof.
  apply (getAuthToken_effects short_expiry_env empty_world
           (Normal (JsStr "t0k3n")) short_expiry_world).
  reflexivity.
Defined.

Lemma login_failure_other e :
  e <> AxiosError (Some 401) ->
  login_failure e = throw (Error MSG_LOGIN_FAILED).
Proof.
  intros Hne. destruct e as [|[z|]|m]; try reflexivity.
  unfold login_failure.
  destruct z as [|p|p]; try reflexivity.
  repeat (destruct p as [p|p|]; try reflexivity).
  now contradiction Hne.
Qed.

(** A failure of getAuthToken carries one of two messages, the one about
    the credentials exactly when the login endpoint answered 401. *)
Theorem getAuthToken_errors env w e w' :
  getAuthToken env w = (Throw e, w') ->
  (e = Error MSG_INVALID_CREDENTIALS /\
   login_api env (now w) = HttpError (Some 401)) \/
  (e = Error MSG_LOGIN_FAILED /\
   login_api env (now w) <> HttpError (Some 401)).
Proof.
  intros Hrun.
  destruct (cached_token (cache_lookup w AUTH_TOKEN_CACHE_KEY) (now w))
    as [token|] eqn:Hc.
  { rewrite (getAuthToken_hit _ _ _ Hc) in Hrun. discriminate. }
  rewrite getAuthToken_miss in Hrun by exact Hc.
  unfold try_catch, login, post_login, mbind, M_bind, request, throw,
    mret, M_ret, clock, lift_completion in Hrun.
  destruct (login_api env (now w)) as [[d|]|st] eqn:Hapi; cbn [fst snd] in Hrun.
  - right. split; [|discriminate]. simpl in Hrun.
    destruct (negb (truthy (login_token d)) || is_undefined (login_expiresIn d));
      [injection Hrun as <- _; reflexivity|].
    destruct (parseInt10 (login_expiresIn d)) as [[n|]|ex] eqn:Hparse;
      [|injection Hrun as <- _; reflexivity
       |apply parseInt10_throws in Hparse as ->;
        injection Hrun as <- _; reflexivity].
    destruct (n <=? 0); [injection Hrun as <- _; reflexivity|].
    destruct (n - TOKEN_REFRESH_BUFFER <=? 0); simpl in Hrun; discriminate.
  - right. split; [|discriminate]. injection Hrun as <- _; reflexivity.
  - destruct st as [z|].
    + destruct (decide (z = 401)) as [->|Hne].
      * left. injection Hrun as <- _. split; reflexivity.
      * right. split; [|congruence].
        fold (login_failure (AxiosError (Some z))) in Hrun.
        rewrite (login_failure_other _) in Hrun by congruence.
        injection Hrun as <- _. reflexivity.
    + right. split; [|discriminate]. injection Hrun as <- _; reflexivity.
Qed.

Lemma getAuthToken_errors_witness :
  (Error MSG_INVALID_CREDENTIALS = Error MSG_INVALID_CREDENTIALS /\
   login_api (fixed_env (HttpError (Some 401)) no_pollution no_wikipedia)
     (now empty_world) = HttpError (Some 401)) \/
  (Error MSG_INVALID_CREDENTIALS = Error MSG_LOGIN_FAILED /\
   login_api (fixed_env (HttpError (Some 401)) no_pollution no_wikipedia)
     (now empty_world) <> HttpError (Some 401)).
Proof.
  apply (getAuthToken_errors
           (fixed_env (HttpError (Some 401)) no_pollution no_wikipedia)
           empty_world (Error MSG_INVALID_CREDENTIALS)
           (after_login
              (fixed_env (HttpError (Some 401)) no_pollution no_wikipedia)
              empty_world)).
  reflexivity.
Defined.

(** A token whose expiry exceeds the buffer is served again, without any
    request and whatever the login endpoint would answer, until the
    buffer before its expiry begins. *)
Theorem token_reused_until_buffer env env' w token w' d e t :
  cached_token (cache_lookup w AUTH_TOKEN_CACHE_KEY) (now w) = None ->
  getAuthToken env w = (Normal token, w') ->
  login_api env (now w) = HttpOk (Some d) ->
  parseInt10 (login_expiresIn d) = Normal (Some e) ->
  now w' <= t < now w' + (e - 60) * 1000 ->
  getAuthToken env' (at_time w' t) = (Normal token, at_time w' t).
Proof.
  intros Hmiss Hrun Hapi Hparse Ht.
  rewrite getAuthToken_miss in Hrun by exact Hmiss. unfold try_catch in Hrun.
  destruct (login env w) as [[tok|ex] w1] eqn:Hlogin.
  - injection Hrun as -> ->.
    apply login_normal in Hlogin
      as (d' & e' & Hapi' & Htok & Htruthy & Hparse' & Hpos & ->).
    rewrite Hapi in Hapi'. injection Hapi' as <-.
    rewrite Hparse in Hparse'. injection Hparse' as <-.
    apply getAuthToken_hit.
    unfold cache_lookup, at_time, cached_token, entry_live; simpl in *.
    rewrite lookup_insert_eq. simpl. unfold TOKEN_REFRESH_BUFFER.
    destruct (e - 60 <=? 0) eqn:Hbuf;
      [apply Z.leb_le in Hbuf; lia|apply Z.leb_gt in Hbuf].
    replace (e - 60 =? 0) with false by (symmetry; apply Z.eqb_neq; lia).
    replace (t <=? now w + latency env (now w) + (e - 60) * 1000) with true
      by (symmetry; apply Z.leb_le; lia).
    simpl. rewrite Htruthy. simpl.
    replace (t + 60 * 1000 <? now w + latency env (now w) + e * 1000) with true
      by (symmetry; apply Z.ltb_lt; lia).
    reflexivity.
  - destruct (login_failure_throws ex w1) as [m Hm]. rewrite Hm in Hrun.
    discriminate.
Qed.

Lemma token_reused_until_buffer_witness :
  getAuthToken offline_env (at_time serving_login_world 1000)
  = (Normal (JsStr "t0k3n"), at_time serving_login_world 1000).
Proof.
  apply (token_reused_until_buffer serving_env offline_env empty_world
           (JsStr "t0k3n") serving_login_world
           {| login_token := JsStr "t0k3n"; login_expiresIn := JsNum "3600" |}
           3600 1000).
  - reflexivity.
  - reflexivity.
  - reflexivity.
  - reflexivity.
  - split; vm_compute; congruence.
Defined.

Lemma getAuthToken_miss_events env w r w' :
  cached_token (cache_lookup w AUTH_TOKEN_CACHE_KEY) (now w) = None ->
  getAuthToken env w = (r, w') ->
  events w' = events w ++ [EvLogin].
Proof.
  intros Hc Hrun.
  rewrite getAuthToken_miss in Hrun by exact Hc. unfold try_catch in Hrun.
  destruct (login env w) as [[tok|e] w1] eqn:Hlogin.
  - injection Hrun as _ <-. now apply login_effects in Hlogin.
  - destruct (login_failure_throws e w1) as [m Hm]. rewrite Hm in Hrun.
    injection Hrun as _ <-. now apply login_effects in Hlogin.
Qed.

(** A token that expires within the buffer (60 seconds or less) is stored
    but never served: the next call, whenever it comes, logs in again. *)
Theorem short_lived_token_never_reused env env' w token w' d e t r w'' :
  cached_token (cache_lookup w AUTH_TOKEN_CACHE_KEY) (now w) = None ->
  getAuthToken env w = (Normal token, w') ->
  login_api env (now w) = HttpOk (Some d) ->
  parseInt10 (login_expiresIn d) = Normal (Some e) ->
  e <= 60 ->
  now w' <= t ->
  getAuthToken env' (at_time w' t) = (r, w'') ->
  events w'' = events w' ++ [EvLogin].
Proof.
  intros Hmiss Hrun Hapi Hparse He Ht Hnext.
  rewrite getAuthToken_miss in Hrun by exact Hmiss. unfold try_catch in Hrun.
  destruct (login env w) as [[tok|ex] w1] eqn:Hlogin.
  - injection Hrun as -> ->.
    apply login_normal in Hlogin
      as (d' & e' & Hapi' & Htok & Htruthy & Hparse' & Hpos & ->).
    rewrite Hapi in Hapi'. injection Hapi' as <-.
    rewrite Hparse in Hparse'. injection Hparse' as <-.
    apply (getAuthToken_miss_events env' _ r w'') in Hnext; [exact Hnext|].
    unfold cache_lookup, at_time, cached_token; simpl in *.
    rewrite lookup_insert_eq. simpl.
    destruct (entry_live _ _); [|reflexivity].
    unfold TOKEN_REFRESH_BUFFER.
    replace (t + 60 * 1000 <? now w + latency env (now w) + e * 1000) with false
      by (symmetry; apply Z.ltb_ge; lia).
    now rewrite andb_false_r.
  - destruct (login_failure_throws ex w1) as [m Hm]. rewrite Hm in Hrun.
    discriminate.
Qed.

Lemma short_lived_token_never_reused_witness :
  events (after_login offline_env (at_time short_expiry_world 5))
  = events short_expiry_world ++ [EvLogin].
Proof.
  apply (short_lived_token_never_reused short_expiry_env offline_env
           empty_world (JsStr "t0k3n") short_expiry_world
           {| login_token := JsStr "t0k3n"; login_expiresIn := JsNum "30" |}
           30 5 (Throw (Error MSG_LOGIN_FAILED))
           (after_login offline_env (at_time short_expiry_world 5))).
  - reflexivity.
  - reflexivity.
  - reflexivity.
  - reflexivity.
  - vm_compute; congruence.
  - vm_compute; congruence.
  - reflexivity.
Defined.

(** ** Pollution service *)

(** What the call does once the token has been obtained. *)
Lemma fetchPollutionData_after_auth env countryCode page limit w token w1 :
  getAuthToken env w = (Normal token, w1) ->
  fetchPollutionData env countryCode (Some page) (Some limit) w =
    let countries := countriesToQuery countryCode in
    let w2 := after_requests env w1 countries page limit token in
    match promise_all
            (map (country_promise env (now w1) page limit token) countries) with
    | Normal rs =>
        (Normal {| r_cities := fst (aggregate rs); r_page := page;
                   r_limit := limit; r_total := snd (aggregate rs) |}, w2)
    | Throw _ => (Throw (Error MSG_FETCH_FAILED), w2)
    end.
Proof.
  intros Hauth.
  unfold fetchPollutionData, try_catch, mbind, M_bind, request,
    lift_completion, throw, mret, M_ret. rewrite Hauth. simpl.
  destruct (promise_all _) as [rs|e]; [|reflexivity].
  destruct (aggregate rs) as [cities total]. reflexivity.
Qed.

Lemma fetchPollutionData_auth_failed env countryCode page_arg limit_arg w e w1 :
  getAuthToken env w = (Throw e, w1) ->
  fetchPollutionData env countryCode page_arg limit_arg w
  = (Throw (Error MSG_FETCH_FAILED), w1).
Proof.
  intros Hauth.
  unfold fetchPollutionData, try_catch, mbind, M_bind, throw.
  now rewrite Hauth.
Qed.

(** Whatever goes wrong, the login included, the caller sees the one
    generic failure. *)
Theorem fetchPollutionData_errors env countryCode page_arg limit_arg w e w' :
  fetchPollutionData env countryCode page_arg limit_arg w = (Throw e, w') ->
  e = Error MSG_FETCH_FAILED.
Proof.
  unfold fetchPollutionData, try_catch, mbind, M_bind, request,
    lift_completion, throw, mret, M_ret.
  destruct (getAuthToken env w) as [[token|ex] w1]; simpl.
  - destruct (promise_all _) as [rs|ex]; [|intros [= <- _]; reflexivity].
    destruct (aggregate rs) as [cities total]. discriminate.
  - intros [= <- _]. reflexivity.
Qed.

Lemma fetchPollutionData_errors_witness :
  Error MSG_FETCH_FAILED = Error MSG_FETCH_FAILED.
Proof.
  apply (fetchPollutionData_errors offline_env None None None empty_world
           (Error MSG_FETCH_FAILED) (after_login offline_env empty_world)).
  reflexivity.
Defined.


Lemma promise_all_normal {A : Type} (ps : list (Completion A)) rs :
  promise_all ps = Normal rs -> ps = map Normal rs.
Proof.
  revert rs. induction ps as [|p ps IH]; simpl; intros rs.
  - intros [= <-]. reflexivity.
  - destruct p as [a|e]; [|discriminate].
    destruct (promise_all ps) as [l|e]; [|discriminate].
    intros [= <-]. simpl. now rewrite (IH l eq_refl).
Qed.





Lemma fetchPollutionData_args env countryCode page_arg limit_arg :
  fetchPollutionData env countryCode page_arg limit_arg
  = fetchPollutionData env countryCode
      (Some (default 1 page_arg)) (Some (default 10 limit_arg)).
Proof. destruct page_arg, limit_arg; reflexivity. Qed.







(** Without a country code the four available countries are queried, in
    one round, with the page, the limit and the token of the call,
    whatever they answer. A token without a primitive value cannot be
    written into the Authorization header: the call then fails and no
    request is sent. *)
Theorem all_countries_queried_by_default env page limit w token w1 r w' :
  getAuthToken env w = (Normal token, w1) ->
  fetchPollutionData env None (Some page) (Some limit) w = (r, w') ->
  (forall bearer,
     ToString token = Normal bearer ->
     events w' = events w1 ++
       [ EvPollutionGet "PL" page limit token;
         EvPollutionGet "DE" page limit token;
         EvPollutionGet "ES" page limit token;
         EvPollutionGet "FR" page limit token ])
  /\ (ToString token = Throw TypeError ->
      events w' = events w1 /\ r = Throw (Error MSG_FETCH_FAILED))
  /\ now w' = now w1 + latency env (now w1)
  /\ store w' = store w1.
Proof.
  intros Hauth. rewrite (fetchPollutionData_after_auth _ _ _ _ _ _ _ Hauth).
  cbv zeta. intros Hrun.
  assert (Hw : w' = after_requests env w1 (countriesToQuery None)
                      page limit token).
  { destruct (promise_all _); now injection Hrun as _ <-. }
  split; [|split; [|split]].
  - intros bearer Hb. subst w'. unfold after_requests, requests_sent.
    rewrite Hb. reflexivity.
  - intros Hb. split.
    + subst w'. unfold after_requests, requests_sent. rewrite Hb.
      simpl. apply app_nil_r.
    + revert Hrun. simpl. unfold country_promise at 1.
      unfold mbind, Completion_bind. rewrite Hb. simpl.
      now intros [= <- _].
  - now subst w'.
  - now subst w'.
Qed.

Lemma all_countries_queried_by_default_witness :
  (forall bearer,
     ToString (JsStr "t0k3n") = Normal bearer ->
     events (after_requests failing_pollution_env failing_login_world
               (countriesToQuery None) 1 10 (JsStr "t0k3n"))
     = events failing_login_world ++
       [ EvPollutionGet "PL" 1 10 (JsStr "t0k3n");
         EvPollutionGet "DE" 1 10 (JsStr "t0k3n");
         EvPollutionGet "ES" 1 10 (JsStr "t0k3n");
         EvPollutionGet "FR" 1 10 (JsStr "t0k3n") ])
  /\ (ToString (JsStr "t0k3n") = Throw TypeError ->
      events (after_requests failing_pollution_env failing_login_world
                (countriesToQuery None) 1 10 (JsStr "t0k3n"))
      = events failing_login_world /\
      @Throw PollutionResult (Error MSG_FETCH_FAILED)
      = Throw (Error MSG_FETCH_FAILED))
  /\ now (after_requests failing_pollution_env failing_login_world
            (countriesToQuery None) 1 10 (JsStr "t0k3n"))
     = now failing_login_world + latency failing_pollution_env
                                   (now failing_login_world)
  /\ store (after_requests failing_pollution_env failing_login_world
              (countriesToQuery None) 1 10 (JsStr "t0k3n"))
     = store failing_login_world.
Proof.
  apply (all_countries_queried_by_default failing_pollution_env 1 10
           empty_world (JsStr "t0k3n") failing_login_world
           (Throw (Error MSG_FETCH_FAILED))).
  - reflexivity.
  - reflexivity.
Defined.

Lemma toUpperCase_idem s : toUpperCase (toUpperCase s) = toUpperCase s.
Proof.
  unfold toUpperCase. rewrite to_of_chars. f_equal.
  induction (to_chars s) as [|c l IH]; simpl; [reflexivity|].
  now rewrite upper_upper, IH.
Qed.

Lemma toUpperCase_empty s : string_eqb (toUpperCase s) "" = string_eqb s "".
Proof. destruct s; reflexivity. Qed.

(** The country code is taken without regard to case. *)
Theorem country_code_case_insensitive env code page_arg limit_arg w :
  fetchPollutionData env (Some code) page_arg limit_arg w
  = fetchPollutionData env (Some (toUpperCase code)) page_arg limit_arg w.
Proof.
  unfold fetchPollutionData, countriesToQuery.
  now rewrite toUpperCase_empty, toUpperCase_idem.
Qed.

Lemma sum_totals_scaled env t page limit token bearer countries :
  ToString token = Normal bearer ->
  forall rs acc,
  Forall (fun c =>
            supported c = true /\
            is_Some (reported_pages (pollution_api env t c page limit token)))
         countries ->
  promise_all (map (country_promise env t page limit token) countries)
    = Normal rs ->
  fold_left (fun a r => count_add a (cr_total r)) rs (Some acc)
  = Some (acc + pages_sum env t page limit token countries * limit).
Proof.
  intros Hb.
  induction countries as [|c cs IH]; intros rs acc Hall; simpl.
  - intros [= <-]. simpl. f_equal. lia.
  - apply Forall_cons_iff in Hall as [[Hsup [n Hn]] Hall].
    unfold country_promise at 1. unfold mbind, Completion_bind.
    rewrite Hsup, Hb. simpl.
    rewrite Hn. simpl.
    unfold reported_pages in Hn. unfold country_result.
    destruct (pollution_api env t c page limit token) as [[[m|] [res|]]|st];
      try discriminate.
    cbn [payload_meta payload_results]. rewrite Hn.
    destruct (promise_all _) as [rs'|e] eqn:Hrest; [|discriminate].
    intros [= <-]. cbn [fold_left cr_total count_add count_mul].
    rewrite (IH rs' (acc + n * limit) Hall eq_refl).
    f_equal. lia.
Qed.

(** When every queried country is available and answers with results, the
    total is the limit times the pages the answers report, summed over
    the countries. The token is one that can be written into the
    Authorization header, as every string or number is. *)
Theorem total_is_pages_times_limit
    env countryCode page limit w token bearer w1 :
  getAuthToken env w = (Normal token, w1) ->
  ToString token = Normal bearer ->
  Forall (fun c =>
            supported c = true /\
            is_Some (reported_pages
                       (pollution_api env (now w1) c page limit token)))
         (countriesToQuery countryCode) ->
  exists r w',
    fetchPollutionData env countryCode (Some page) (Some limit) w
      = (Normal r, w') /\
    r_total r =
      Some (pages_sum env (now w1) page limit token
              (countriesToQuery countryCode) * limit).
Proof.
  intros Hauth Hb Hall.
  rewrite (fetchPollutionData_after_auth _ _ _ _ _ _ _ Hauth). simpl.
  destruct (promise_all _) as [rs|e] eqn:Hp.
  - eexists _, _. split; [reflexivity|]. simpl.
    rewrite aggregate_total. unfold sum_totals.
    now rewrite (sum_totals_scaled _ _ _ _ _ _ _ Hb rs 0 Hall Hp).
  - exfalso. revert Hp Hall. generalize (countriesToQuery countryCode).
    intros cs. revert e. induction cs as [|c cs IH]; intros e; simpl;
      [discriminate|].
    intros Hp Hall. apply Forall_cons_iff in Hall as [[Hsup [n Hn]] Hall].
    unfold country_promise at 1 in Hp. unfold mbind, Completion_bind in Hp.
    rewrite Hsup, Hb in Hp. simpl in Hp.
    unfold reported_pages in Hn. unfold country_result in Hp.
    destruct (pollution_api env (now w1) c page limit token)
      as [[[m|] [res|]]|st]; try discriminate.
    destruct (promise_all _) as [rs'|e'] eqn:Hrest; [discriminate|].
    eapply IH; eauto.
Qed.

Lemma total_is_pages_times_limit_witness :
  exists r w',
    fetchPollutionData serving_env None (Some 1) (Some 10) empty_world
      = (Normal r, w') /\
    r_total r =
      Some (pages_sum serving_env (now serving_login_world) 1 10
              (JsStr "t0k3n") (countriesToQuery None) * 10).
Proof.
  apply (total_is_pages_times_limit serving_env None 1 10 empty_world
           (JsStr "t0k3n") "t0k3n" serving_login_world).
  - reflexivity.
  - reflexivity.
  - repeat constructor; eexists; reflexivity.
Defined.

(** ** Wikipedia service *)

Lemma fetchCityDescription_cached env query w v :
  cache_lookup w (search_key query) = Some v ->
  truthy_cached (Some v) = true ->
  fetchCityDescription env query w
  = (Normal (Some v),
     {| store := store w; now := now w;
        events := events w ++ [EvWikiLookup query] |}).
Proof.
  intros Hget Htruthy.
  unfold fetchCityDescription, mbind, M_bind, record_event, cache_get,
    mret, M_ret. cbn [fst snd].
  unfold search_key in Hget. unfold cache_lookup in *. cbn [store now] in *.
  rewrite Hget, Htruthy. reflexivity.
Qed.

Lemma fetchCityDescription_fresh env query w :
  truthy_cached (cache_lookup w (search_key query)) = false ->
  fetchCityDescription env query w
  = match wikipedia_api env (now w) query with
    | Some (d, title) =>
        (Normal (Some (CvWiki d title)),
         {| store :=
              <[search_key query :=
                  {| entry_value := CvWiki d title;
                     entry_stored := now w + latency env (now w);
                     entry_ttl := WIKIPEDIA_CACHE_TTL |}]> (store w);
            now := now w + latency env (now w);
            events := events w ++ [EvWikiLookup query] |})
    | None =>
        (Normal None,
         {| store := store w; now := now w + latency env (now w);
            events := events w ++ [EvWikiLookup query] |})
    end.
Proof.
  intros Hmiss.
  unfold fetchCityDescription, mbind, M_bind, record_event, cache_get,
    request, mret, M_ret, cache_set. cbn [fst snd].
  unfold search_key in *. unfold cache_lookup in *. cbn [store now events] in *.
  rewrite Hmiss.
  cbn [store now events].
  destruct (wikipedia_api env (now w) query) as [[d title]|];
    cbn [store now events]; now rewrite app_nil_r.
Qed.

(** A page that was found is served from the cache for the next hour,
    whatever the network would answer then. *)
Theorem fetched_page_served_from_cache env env' query w d title t :
  truthy_cached (cache_lookup w (search_key query)) = false ->
  wikipedia_api env (now w) query = Some (d, title) ->
  now w + latency env (now w) <= t
    <= now w + latency env (now w) + WIKIPEDIA_CACHE_TTL * 1000 ->
  fst (fetchCityDescription env query w) = Normal (Some (CvWiki d title)) /\
  fst (fetchCityDescription env' query
         (at_time (snd (fetchCityDescription env query w)) t))
    = Normal (Some (CvWiki d title)) /\
  store (snd (fetchCityDescription env' query
                (at_time (snd (fetchCityDescription env query w)) t)))
    = store (snd (fetchCityDescription env query w)).
Proof.
  intros Hmiss Hapi Ht.
  rewrite (fetchCityDescription_fresh _ _ _ Hmiss), Hapi. cbn [fst snd].
  split; [reflexivity|].
  rewrite (fetchCityDescription_cached env' query _ (CvWiki d title)).
  - split; reflexivity.
  - unfold cache_lookup, at_time, entry_live. cbn [store now].
    rewrite lookup_insert_eq. cbn [entry_ttl entry_stored entry_value].
    replace (t <=? now w + latency env (now w) + WIKIPEDIA_CACHE_TTL * 1000)
      with true by (symmetry; apply Z.leb_le; lia).
    now rewrite orb_true_r.
  - reflexivity.
Qed.

Lemma fetched_page_served_from_cache_witness :
  fst (fetchCityDescription lodz_env "Lodz, PL" empty_world)
    = Normal (Some (CvWiki "Lodz is a city in central Poland." "Lodz")) /\
  fst (fetchCityDescription offline_env "Lodz, PL"
         (at_time (snd (fetchCityDescription lodz_env "Lodz, PL" empty_world))
            1800000))
    = Normal (Some (CvWiki "Lodz is a city in central Poland." "Lodz")) /\
  store (snd (fetchCityDescription offline_env "Lodz, PL"
                (at_time
                   (snd (fetchCityDescription lodz_env "Lodz, PL" empty_world))
                   1800000)))
    = store (snd (fetchCityDescription lodz_env "Lodz, PL" empty_world)).
Proof.
  apply (fetched_page_served_from_cache lodz_env offline_env "Lodz, PL"
           empty_world "Lodz is a city in central Poland." "Lodz" 1800000).
  - reflexivity.
  - reflexivity.
  - split; vm_compute; congruence.
Defined.

(** The lookup writes at most the entry of its own query, and nothing at
    all when it finds no page: a failed lookup is tried again next
    time. *)
Theorem fetchCityDescription_writes env query w r w' :
  fetchCityDescription env query w = (r, w') ->
  (forall key, key <> search_key query -> store w' !! key = store w !! key) /\
  (r = Normal None -> store w' = store w).
Proof.
  destruct (truthy_cached (cache_lookup w (search_key query))) eqn:Hc.
  - destruct (cache_lookup w (search_key query)) as [v|] eqn:Hget;
      [|discriminate].
    rewrite (fetchCityDescription_cached _ _ _ _ Hget Hc).
    intros [= <- <-]. split; [reflexivity|]. reflexivity.
  - rewrite (fetchCityDescription_fresh _ _ _ Hc).
    destruct (wikipedia_api env (now w) query) as [[d title]|];
      intros [= <- <-]; cbn [store]; split; try reflexivity; try discriminate.
    intros key Hkey. now rewrite lookup_insert_ne.
Qed.

Lemma fetchCityDescription_writes_witness :
  (forall key, key <> search_key "Nowhere" ->
     store (snd (fetchCityDescription lodz_env "Nowhere" empty_world)) !! key
     = store empty_world !! key) /\
  (Normal (@None CacheValue) = Normal None ->
   store (snd (fetchCityDescription lodz_env "Nowhere" empty_world))
   = store empty_world).
Proof.
  apply (fetchCityDescription_writes lodz_env "Nowhere" empty_world).
  reflexivity.
Defined.

(** ** Description resolver: what a run leaves behind *)

Lemma wiki_key_prefixed query : wiki_prefixed (wiki_key query) = true.
Proof. reflexivity. Qed.

Lemma search_key_prefixed query : wiki_prefixed (search_key query) = true.
Proof. reflexivity. Qed.

Lemma not_prefixed_ne key key' :
  wiki_prefixed key = false -> wiki_prefixed key' = true -> key' <> key.
Proof. intros H H' ->. congruence. Qed.

Lemma fetchCityDescription_other_keys env query w r w' key :
  fetchCityDescription env query w = (r, w') ->
  key <> search_key query -> store w' !! key = store w !! key.
Proof.
  intros Hrun Hkey.
  destruct (truthy_cached (cache_lookup w (search_key query))) eqn:Hc.
  - destruct (cache_lookup w (search_key query)) as [v|] eqn:Hget;
      [|discriminate].
    rewrite (fetchCityDescription_cached _ _ _ _ Hget Hc) in Hrun.
    injection Hrun as _ <-. reflexivity.
  - rewrite (fetchCityDescription_fresh _ _ _ Hc) in Hrun.
    destruct (wikipedia_api env (now w) query) as [[d title]|];
      injection Hrun as _ <-; cbn [store]; [|reflexivity].
    now rewrite lookup_insert_ne.
Qed.

(** What a cascade leaves: entries outside the description caches are
    untouched, a result is in the cache under the key of one of the
    candidates, and the cache stays well formed. *)
Lemma cascade_facts env o c l queries w result w' :
  Cascade env o c l queries w result w' ->
  (forall key, wiki_prefixed key = false -> store w' !! key = store w !! key) /\
  (forall v, result = Some v ->
     exists q, In q queries /\ cache_lookup w' (wiki_key q) = Some v) /\
  (store_wf w -> store_wf w').
Proof.
  induction 1 as [w|q rest w v Hget|q rest w w1 d t Hget Hfetch Hd Hacc
                  |q rest w w1 result w' Hfail Hrest IH].
  - split; [reflexivity|]. split; [discriminate|auto].
  - split; [reflexivity|]. split; [|auto].
    intros v' [= <-]. exists q. split; [now left|exact Hget].
  - split; [|split].
    + intros key Hkey. cbn [snd cache_set store].
      rewrite lookup_insert_ne
        by (apply (not_prefixed_ne key); [exact Hkey|apply wiki_key_prefixed]).
      eapply fetchCityDescription_other_keys; [exact Hfetch|].
      apply not_eq_sym, (not_prefixed_ne key); [exact Hkey|].
      apply search_key_prefixed.
    + intros v [= <-]. exists q. split; [now left|].
      unfold cache_lookup, entry_live. cbn [snd cache_set store now].
      rewrite lookup_insert_eq. cbn [entry_ttl entry_stored entry_value].
      replace (now w1 <=? now w1 + WIKIPEDIA_CACHE_TTL * 1000) with true
        by (symmetry; apply Z.leb_le; unfold WIKIPEDIA_CACHE_TTL; lia).
      now rewrite orb_true_r.
    + intros Hwf. apply cache_set_wf.
      * destruct (fetchCityDescription_run env q w) as (wd & w2 & Hr & _ & Hw).
        rewrite Hfetch in Hr. injection Hr as _ <-. auto.
      * intros [= ->]. now contradiction Hd.
  - destruct Hfail as (Hget & wikiData & Hfetch & _).
    destruct IH as (IH1 & IH2 & IH3). split; [|split].
    + intros key Hkey. rewrite (IH1 key Hkey).
      eapply fetchCityDescription_other_keys; [exact Hfetch|].
      apply not_eq_sym, (not_prefixed_ne key); [exact Hkey|].
      apply search_key_prefixed.
    + intros v Hv. destruct (IH2 v Hv) as (q' & Hin & Hl).
      exists q'. split; [now right|exact Hl].
    + intros Hwf. apply IH3.
      destruct (fetchCityDescription_run env q w) as (wd & w2 & Hr & _ & Hw).
      rewrite Hfetch in Hr. injection Hr as _ <-. auto.
Qed.

(** A description that getWikipediaDescription returns is truthy, so the
    controller keeps the city, and it is in the cache under the key of
    one of the four candidates; the cache stays free of empty
    descriptions. *)
Theorem resolved_description_cached env originalName countryName lookupName
    w v w' :
  store_wf w ->
  getWikipediaDescription env originalName countryName lookupName w
    = (Normal (Some v), w') ->
  truthy_cached (Some v) = true /\
  (exists q,
     In q (searchQueries originalName countryName lookupName) /\
     cache_lookup w' (wiki_key q) = Some v) /\
  store_wf w'.
Proof.
  intros Hwf Hrun. unfold getWikipediaDescription in Hrun.
  destruct (resolveQueries_cascade env originalName countryName lookupName
              (searchQueries originalName countryName lookupName) w Hwf)
    as (r & w1 & n & Hrun' & Hc & _).
  rewrite Hrun in Hrun'. injection Hrun' as <- <-.
  destruct (cascade_facts _ _ _ _ _ _ _ _ Hc) as (_ & Hcached & Hwf').
  destruct (Hcached v eq_refl) as (q & Hin & Hget).
  split; [|split; [eauto|auto]].
  eapply cache_lookup_truthy; [apply Hwf'; exact Hwf|exact Hget].
Qed.

Lemma resolved_description_cached_witness :
  truthy_cached (Some (CvText "Lodz is a city in central Poland.")) = true /\
  (exists q,
     In q (searchQueries "Lodz" "PL" "Lodz") /\
     cache_lookup
       (snd (getWikipediaDescription lodz_env "Lodz" "PL" "Lodz" empty_world))
       (wiki_key q)
     = Some (CvText "Lodz is a city in central Poland.")) /\
  store_wf
    (snd (getWikipediaDescription lodz_env "Lodz" "PL" "Lodz" empty_world)).
Proof.
  apply (resolved_description_cached lodz_env "Lodz" "PL" "Lodz" empty_world).
  - exact empty_world_wf.
  - reflexivity.
Defined.

(** Description resolution touches only the description caches: the
    token and the pollution entries are as they were. *)
Theorem resolution_keeps_other_entries env originalName countryName lookupName
    w r w' key :
  store_wf w ->
  getWikipediaDescription env originalName countryName lookupName w = (r, w') ->
  wiki_prefixed key = false ->
  store w' !! key = store w !! key.
Proof.
  intros Hwf Hrun Hkey. unfold getWikipediaDescription in Hrun.
  destruct (resolveQueries_cascade env originalName countryName lookupName
              (searchQueries originalName countryName lookupName) w Hwf)
    as (r1 & w1 & n & Hrun' & Hc & _).
  rewrite Hrun in Hrun'. injection Hrun' as _ <-.
  destruct (cascade_facts _ _ _ _ _ _ _ _ Hc) as (Hframe & _).
  now apply Hframe.
Qed.

Lemma resolution_keeps_other_entries_witness :
  store (snd (getWikipediaDescription lodz_env "Lodz" "PL" "Lodz" empty_world))
    !! AUTH_TOKEN_CACHE_KEY
  = store empty_world !! AUTH_TOKEN_CACHE_KEY.
Proof.
  apply (resolution_keeps_other_entries lodz_env "Lodz" "PL" "Lodz"
           empty_world
           (fst (getWikipediaDescription lodz_env "Lodz" "PL" "Lodz" empty_world))).
  - exact empty_world_wf.
  - reflexivity.
  - reflexivity.
Defined.

(** ** City normalizer: what an accepted record looks like *)

Lemma trim_idem s : trim (trim s) = trim s.
Proof. unfold trim. now rewrite to_of_chars, trim_chars_idem. Qed.

Lemma accepted_record data n :
  normalizeCityData data = Normal (Some n) ->
  exists r, data = Some r /\ rejects data = false /\ n = normalized_of r.
Proof.
  intros Hrun. apply normalizeCityData_Some in Hrun as [_ Hrun].
  revert Hrun. cbv beta delta [spec_normalize].
  destruct data as [r|]; [|discriminate].
  destruct (rejects (Some r)) eqn:Hrej; [discriminate|].
  intros [= <-]. eauto.
Qed.

(** The outcomes of normalizeCityData. It throws, a TypeError, at the
    records whose name and country are present and not blank and whose
    pollution has no primitive value, and only there. Everywhere else it
    completes normally: with null exactly when the name or the country is
    missing or blank, the pollution does not parse to a non-negative
    float, or the lookup name is empty, all digits or at most one
    character long, and otherwise with the record of the trimmed name,
    the lookup name, the trimmed country and the parsed pollution. *)
Theorem normalizeCityData_outcome (data : option RawCityRecord) :
  (unreadable_pollution data = true ->
   normalizeCityData data = Throw TypeError) /\
  (unreadable_pollution data = false ->
   exists result,
     normalizeCityData data = Normal result /\
     (result = None <-> rejects data = true) /\
     (forall r, data = Some r -> rejects data = false ->
                result = Some (normalized_of r))).
Proof.
  rewrite normalizeCityData_run.
  split; intros ->; [reflexivity|].
  exists (spec_normalize data). split; [reflexivity|].
  cbv beta delta [spec_normalize]. destruct data as [r|].
  - destruct (rejects (Some r)) eqn:Hrej.
    + split; [split; reflexivity|]. discriminate.
    + split; [split; discriminate|]. intros r' [= <-] _. reflexivity.
  - split; [split; reflexivity|]. discriminate.
Qed.

(** The fields of a record that normalizeCityData lets through: name and
    country are trimmed and not empty, the lookup name has at least two
    characters and is not a number, the pollution is a Number that is not
    negative. *)
Theorem normalized_city_invariants data n :
  normalizeCityData data = Normal (Some n) ->
  trim (originalName n) = originalName n /\ originalName n <> "" /\
  trim (country n) = country n /\ country n <> "" /\
  (2 <= str_length (lookupName n))%nat /\
  all_digits (to_chars (lookupName n)) = false /\
  isNaN (pollution n) = false /\ is_negative (pollution n) = false.
Proof.
  intros Hrun. apply accepted_record in Hrun as (r & -> & Hrej & ->).
  unfold rejects, missing_or_blank, non_negative_float in Hrej.
  repeat (apply orb_false_iff in Hrej as [Hrej ?]).
  unfold normalized_of. cbn [originalName lookupName country pollution].
  unfold text_or_empty in *.
  destruct (field_text (raw_name r)) as [s|]; [|discriminate].
  destruct (field_text (raw_country r)) as [s'|]; [|discriminate].
  repeat split.
  - apply trim_idem.
  - now apply string_eqb_neq.
  - apply trim_idem.
  - now apply string_eqb_neq.
  - match goal with H : (_ <=? 1)%nat = false |- _ =>
      apply Nat.leb_gt in H; lia end.
  - assumption.
  - match goal with H : negb (_ && _) = false |- _ =>
      apply negb_false_iff, andb_true_iff in H as [H _];
      now apply negb_true_iff in H end.
  - match goal with H : negb (_ && _) = false |- _ =>
      apply negb_false_iff, andb_true_iff in H as [_ H];
      now apply negb_true_iff in H end.
Qed.

Lemma normalized_city_invariants_witness :
  trim (originalName warsaw_city) = originalName warsaw_city /\
  originalName warsaw_city <> "" /\
  trim (country warsaw_city) = country warsaw_city /\
  country warsaw_city <> "" /\
  (2 <= str_length (lookupName warsaw_city))%nat /\
  all_digits (to_chars (lookupName warsaw_city)) = false /\
  isNaN (pollution warsaw_city) = false /\
  is_negative (pollution warsaw_city) = false.
Proof.
  apply (normalized_city_invariants (Some warsaw_record) warsaw_city).
  reflexivity.
Defined.

Lemma title_from_length l : forall start,
  length (title_from start l) = length l.
Proof.
  induction l as [|c r IH]; intros start; simpl; [reflexivity|].
  destruct (ascii_eqb c " "); simpl; now rewrite IH.
Qed.

Lemma collapse_from_length l : forall in_run,
  (length (collapse_from in_run l) <= length l)%nat.
Proof.
  induction l as [|c r IH]; intros in_run; simpl; [lia|].
  destruct (is_space c); [destruct in_run|]; simpl;
    match goal with |- context [collapse_from ?b r] => specialize (IH b) end;
    lia.
Qed.

Lemma lookup_chars_length l : (length (lookup_chars l) <= length l)%nat.
Proof.
  unfold lookup_chars. rewrite title_from_spec.
  pose proof (sublist_length _ _ (strip_parens_from_sublist l 0)) as H1.
  pose proof (sublist_length _ _ (trim_chars_sublist (strip_parens l))) as H2.
  set (a := trim_chars (strip_parens l)) in *.
  pose proof (title_from_length a true) as H3.
  pose proof (sublist_length _ _ (trim_chars_sublist (title_from true a))) as H4.
  set (b := trim_chars (title_from true a)) in *.
  pose proof (collapse_from_length b false) as H5.
  pose proof (sublist_length _ _ (trim_chars_sublist (collapse_spaces b))) as H6.
  unfold strip_parens, collapse_spaces in *. lia.
Qed.

Lemma lookup_chars_spacing l :
  single_spaced false (lookup_chars l) = true /\
  trim_chars (lookup_chars l) = lookup_chars l.
Proof.
  unfold lookup_chars. split; [|apply trim_chars_idem].
  apply single_spaced_trim_end, (single_spaced_skip_spaces _ false).
  apply single_spaced_collapse.
Qed.

Lemma of_chars_length l : str_length (of_chars l) = length l.
Proof.
  unfold str_length, of_chars. induction l as [|c r IH]; simpl; auto.
Qed.

Lemma to_chars_length s : length (to_chars s) = str_length s.
Proof.
  unfold str_length, to_chars. induction s as [|c r IH]; simpl; auto.
Qed.

(** The lookup name of any accepted record, whatever the raw name held:
    it has no white space at its ends, its only white space is single
    spaces, and it is no longer than the trimmed name. *)
Theorem lookup_name_shape data n :
  normalizeCityData data = Normal (Some n) ->
  trim (lookupName n) = lookupName n /\
  single_spaced false (to_chars (lookupName n)) = true /\
  (str_length (lookupName n) <= str_length (originalName n))%nat.
Proof.
  intros Hrun. apply accepted_record in Hrun as (r & -> & _ & ->).
  unfold normalized_of. cbn [originalName lookupName].
  set (name := trim (text_or_empty (raw_name r))).
  unfold deriveLookupName, trim. rewrite !to_of_chars.
  destruct (lookup_chars_spacing (to_chars name)) as [Hs Ht].
  split; [now rewrite Ht|]. split; [exact Hs|].
  rewrite of_chars_length, <- to_chars_length. apply lookup_chars_length.
Qed.

Lemma lookup_name_shape_witness :
  trim (lookupName warsaw_city) = lookupName warsaw_city /\
  single_spaced false (to_chars (lookupName warsaw_city)) = true /\
  (str_length (lookupName warsaw_city) <= str_length (originalName warsaw_city))%nat.
Proof.
  apply (lookup_name_shape (Some warsaw_record) warsaw_city).
  reflexivity.
Defined.

(** ** Wikipedia service: the short description *)

Lemma trim_chars_length l : (length (trim_chars l) <= length l)%nat.
Proof. apply sublist_length, trim_chars_sublist. Qed.

Lemma last_index_of_lt x l i :
  last_index_of x l = Some i -> (i < length l)%nat.
Proof.
  revert i. induction l as [|c r IH]; simpl; intros i; [discriminate|].
  destruct (last_index_of x r) as [j|].
  - intros [= <-]. specialize (IH j eq_refl). lia.
  - destruct (ascii_eqb c x); intros [= <-]. lia.
Qed.

Lemma cut_description_length l :
  (length (cut_description l) <= maxLength + 3)%nat.
Proof.
  unfold cut_description.
  destruct (maxLength <? length l)%nat eqn:Hlen.
  - rewrite length_app.
    pose proof (trim_chars_length (take maxLength l)) as Ht.
    rewrite length_take in Ht.
    change (length (to_chars "...")) with 3%nat.
    destruct (last_index_of " " (trim_chars (take maxLength l))) as [[|i]|];
      rewrite ?length_take; lia.
  - apply Nat.ltb_ge in Hlen. lia.
Qed.

(** A short description never exceeds 253 characters: 250 and the
    ellipsis. *)
Theorem short_description_bounded extract :
  (str_length (shortDescriptionOf extract) <= 253)%nat.
Proof.
  unfold shortDescriptionOf. rewrite of_chars_length.
  apply (cut_description_length (chosen_sentence (to_chars extract))).
Qed.

Lemma trim_end_prefix l : trim_end l `prefix_of` l.
Proof.
  induction l as [|c r IH]; simpl; [reflexivity|].
  destruct (trim_end r) as [|x r'] eqn:Hr.
  - destruct (is_space c); [apply prefix_nil|].
    apply prefix_cons, prefix_nil.
  - now apply prefix_cons.
Qed.

Lemma chosen_sentence_trimmed extract :
  trim_chars (chosen_sentence extract) = chosen_sentence extract.
Proof.
  unfold chosen_sentence.
  destruct (first_sentence extract); apply trim_chars_idem.
Qed.

Lemma trimmed_head l :
  trim_chars l = l -> skip_spaces l = l.
Proof.
  unfold trim_chars. intros H.
  destruct (skip_spaces l) as [|c r] eqn:Hs.
  - exact H.
  - pose proof (skip_spaces_head _ _ _ Hs) as Hc.
    destruct (trim_end_head c r Hc) as [r' Hr']. rewrite Hr' in H.
    subst l. rewrite (skip_spaces_fixed _ _ Hc) in Hs. now symmetry.
Qed.

Lemma skip_spaces_take l n :
  skip_spaces l = l -> skip_spaces (take n l) = take n l.
Proof.
  destruct l as [|c r]; [now rewrite take_nil|].
  destruct n as [|n]; [reflexivity|]. simpl.
  destruct (is_space c) eqn:Hc; [|reflexivity].
  intros H. pose proof (sublist_length _ _ (skip_spaces_sublist r)) as Hlen.
  rewrite H in Hlen. simpl in Hlen. lia.
Qed.

(** A sentence of at most 250 characters is returned as it is, trimmed;
    a longer one is cut: the result is a prefix of the sentence, of at
    most 250 characters, followed by the ellipsis. *)
Theorem short_description_cut extract :
  let sentence := chosen_sentence (to_chars extract) in
  ((length sentence <= 250)%nat ->
   to_chars (shortDescriptionOf extract) = sentence) /\
  ((250 < length sentence)%nat ->
   exists kept,
     to_chars (shortDescriptionOf extract) = kept ++ to_chars "..." /\
     kept `prefix_of` sentence /\ (length kept <= 250)%nat).
Proof.
  intros sentence. unfold shortDescriptionOf. rewrite to_of_chars.
  fold sentence. unfold cut_description. split.
  - intros Hlen.
    replace (maxLength <? length sentence)%nat with false
      by (symmetry; apply Nat.ltb_ge; exact Hlen).
    reflexivity.
  - intros Hlen.
    replace (maxLength <? length sentence)%nat with true
      by (symmetry; apply Nat.ltb_lt; exact Hlen).
    assert (Hcut : trim_chars (take maxLength sentence)
                     `prefix_of` sentence).
    { unfold trim_chars.
      rewrite skip_spaces_take
        by (apply trimmed_head, chosen_sentence_trimmed).
      etransitivity; [apply trim_end_prefix|apply prefix_take]. }
    pose proof (trim_chars_length (take maxLength sentence)) as Ht.
    rewrite length_take in Ht.
    eexists. split; [reflexivity|].
    destruct (last_index_of " " (trim_chars (take maxLength sentence)))
      as [[|i]|].
    + split; [exact Hcut|]. unfold maxLength in *. lia.
    + split; [etransitivity; [apply prefix_take|exact Hcut]|].
      rewrite length_take. unfold maxLength in *. lia.
    + split; [exact Hcut|]. unfold maxLength in *. lia.
Qed.

(** ** Controller: the request handler *)

Lemma loadPollutionData_hit env ctry page limit w v :
  cache_lookup w (pollutionCacheKey ctry page limit) = Some v ->
  truthy_cached (Some v) = true ->
  loadPollutionData env ctry page limit w = (Normal v, w).
Proof.
  intros Hget Htruthy.
  unfold loadPollutionData, mbind, M_bind, cache_get. cbn [fst snd].
  now rewrite Hget, Htruthy.
Qed.

Lemma loadPollutionData_miss env ctry page limit w :
  truthy_cached (cache_lookup w (pollutionCacheKey ctry page limit)) = false ->
  loadPollutionData env ctry page limit w
  = match fetchPollutionData env ctry (Some page) (Some limit) w with
    | (Normal fetched, w1) =>
        (Normal (CvPollution fetched),
         snd (cache_set (pollutionCacheKey ctry page limit)
                (CvPollution fetched) POLLUTION_CACHE_TTL w1))
    | (Throw e, w1) => (Throw e, w1)
    end.
Proof.
  intros Hmiss.
  unfold loadPollutionData, mbind, M_bind, cache_get. cbn [fst snd].
  rewrite Hmiss.
  destruct (fetchPollutionData env ctry (Some page) (Some limit) w)
    as [[fetched|e] w1]; reflexivity.
Qed.

Lemma cache_set_lookup key v ttl w t :
  0 < ttl -> now w <= t <= now w + ttl * 1000 ->
  cache_lookup (at_time (snd (cache_set key v ttl w)) t) key = Some v.
Proof.
  intros Httl Ht. unfold cache_lookup, at_time, entry_live.
  cbn [snd cache_set store now]. rewrite lookup_insert_eq.
  cbn [entry_ttl entry_stored entry_value].
  replace (t <=? now w + ttl * 1000) with true
    by (symmetry; apply Z.leb_le; lia).
  now rewrite orb_true_r.
Qed.

(** Pollution data that was fetched is served from the cache for the next
    ten minutes: the same request then reaches neither the login nor the
    pollution endpoint. *)
Theorem pollution_data_cached_ten_minutes
    env env' ctry page limit w fetched w1 t :
  truthy_cached (cache_lookup w (pollutionCacheKey ctry page limit)) = false ->
  fetchPollutionData env ctry (Some page) (Some limit) w = (Normal fetched, w1) ->
  now w1 <= t <= now w1 + POLLUTION_CACHE_TTL * 1000 ->
  fst (loadPollutionData env ctry page limit w) = Normal (CvPollution fetched) /\
  loadPollutionData env' ctry page limit
    (at_time (snd (loadPollutionData env ctry page limit w)) t)
  = (Normal (CvPollution fetched),
     at_time (snd (loadPollutionData env ctry page limit w)) t).
Proof.
  intros Hmiss Hfetch Ht.
  rewrite (loadPollutionData_miss _ _ _ _ _ Hmiss), Hfetch. cbn [fst snd].
  split; [reflexivity|].
  apply loadPollutionData_hit; [|reflexivity].
  apply cache_set_lookup; [reflexivity|exact Ht].
Qed.

Lemma pollution_data_cached_ten_minutes_witness :
  fst (loadPollutionData serving_env (Some "PL") 1 10 empty_world)
    = Normal (CvPollution serving_result) /\
  loadPollutionData offline_env (Some "PL") 1 10
    (at_time (snd (loadPollutionData serving_env (Some "PL") 1 10 empty_world))
       300000)
  = (Normal (CvPollution serving_result),
     at_time (snd (loadPollutionData serving_env (Some "PL") 1 10 empty_world))
       300000).
Proof.
  apply (pollution_data_cached_ten_minutes serving_env offline_env (Some "PL")
           1 10 empty_world serving_result serving_world 300000).
  - reflexivity.
  - reflexivity.
  - split; vm_compute; congruence.
Defined.

(** A request for the country "default" fills the cache entry of the
    request without a country: for ten minutes the latter is answered
    with the empty result of the unknown code. *)
Theorem country_default_shares_cache_entry
    env env' page limit w token w1 t :
  truthy_cached (cache_lookup w (pollutionCacheKey None page limit)) = false ->
  getAuthToken env w = (Normal token, w1) ->
  now w1 + latency env (now w1) <= t
    <= now w1 + latency env (now w1) + POLLUTION_CACHE_TTL * 1000 ->
  fst (loadPollutionData env (Some "default") page limit w)
    = Normal (CvPollution (empty_result page limit)) /\
  fst (loadPollutionData env' None page limit
         (at_time (snd (loadPollutionData env (Some "default") page limit w)) t))
    = Normal (CvPollution (empty_result page limit)).
Proof.
  intros Hmiss Hauth Ht.
  change (pollutionCacheKey None page limit)
    with (pollutionCacheKey (Some "default") page limit) in Hmiss.
  rewrite (loadPollutionData_miss _ _ _ _ _ Hmiss).
  rewrite (fetchPollutionData_after_auth _ _ _ _ _ _ _ Hauth).
  cbn [fst snd]. split; [reflexivity|].
  rewrite (loadPollutionData_hit env' None page limit _
             (CvPollution (empty_result page limit))); [reflexivity| |reflexivity].
  change (pollutionCacheKey None page limit)
    with (pollutionCacheKey (Some "default") page limit).
  apply cache_set_lookup; [reflexivity|exact Ht].
Qed.

Lemma country_default_shares_cache_entry_witness :
  fst (loadPollutionData serving_env (Some "default") 1 10 empty_world)
    = Normal (CvPollution (empty_result 1 10)) /\
  fst (loadPollutionData serving_env None 1 10
         (at_time
            (snd (loadPollutionData serving_env (Some "default") 1 10
                    empty_world)) 60000))
    = Normal (CvPollution (empty_result 1 10)).
Proof.
  apply (country_default_shares_cache_entry serving_env serving_env 1 10
           empty_world (JsStr "t0k3n") serving_login_world 60000).
  - reflexivity.
  - reflexivity.
  - split; vm_compute; congruence.
Defined.

Lemma pagination_Some query p l :
  pagination query = Normal (Some (p, l)) ->
  parseInt (or_default (JsNum "1") (q_page query)) = Normal (Some p) /\
  parseInt (or_default (JsNum "10") (q_limit query)) = Normal (Some l) /\
  (p <? 1) || (l <? 1) = false.
Proof.
  unfold pagination, mbind, Completion_bind, mret, Completion_ret.
  destruct (parseInt _) as [[p'|]|ex]; try discriminate;
    destruct (parseInt _) as [[l'|]|ex']; try discriminate.
  destruct ((1 <=? p') && (1 <=? l')) eqn:H; [|discriminate].
  intros [= <- <-]. apply andb_true_iff in H as [Hp Hl].
  apply Z.leb_le in Hp, Hl. repeat split.
  apply orb_false_iff. split; apply Z.ltb_ge; lia.
Qed.



Lemma spec_normalize_Some cityEntry c :
  spec_normalize (Some cityEntry) = Some c ->
  rejects (Some cityEntry) = false /\ c = normalized_of cityEntry.
Proof.
  cbv beta delta [spec_normalize].
  destruct (rejects (Some cityEntry)); [discriminate|].
  intros [= <-]. split; reflexivity.
Qed.

(** The loop keeps what the specification's normalizer keeps, when no
    entry makes normalizeCityData throw. *)
Lemma validCities_run entries valid :
  validCities entries = Normal valid ->
  valid = omap (fun cityEntry => spec_normalize (Some cityEntry)) entries.
Proof.
  revert valid. induction entries as [|e rest IH]; intros valid.
  - now intros [= <-].
  - cbn [validCities omap list_omap]. rewrite normalizeCityData_run.
    unfold mbind, Completion_bind, mret, Completion_ret.
    destruct (unreadable_pollution (Some e)); [discriminate|].
    destruct (validCities rest) as [v|ex]; [|discriminate].
    rewrite <- (IH v eq_refl).
    destruct (spec_normalize (Some e)); now intros [= <-].
Qed.

Lemma normalized_of_presentable r :
  rejects (Some r) = false ->
  originalName (normalized_of r) <> "" /\
  isNaN (pollution (normalized_of r)) = false /\
  is_negative (pollution (normalized_of r)) = false.
Proof.
  intros Hrej. unfold rejects, missing_or_blank, non_negative_float in Hrej.
  repeat (apply orb_false_iff in Hrej as [Hrej ?]).
  unfold normalized_of. cbn [originalName pollution]. unfold text_or_empty.
  destruct (field_text (raw_name r)) as [s|]; [|discriminate].
  match goal with H : negb (_ && _) = false |- _ =>
    apply negb_false_iff, andb_true_iff in H as [Hnan Hneg];
    apply negb_true_iff in Hnan, Hneg end.
  repeat split; try assumption. now apply string_eqb_neq.
Qed.

Lemma assembled_presentable localeCompare resolved :
  Forall (fun '(c, _) => exists r, rejects (Some r) = false /\
                                   c = normalized_of r) resolved ->
  Forall presentable (assembleCities localeCompare resolved).
Proof.
  intros Hall. unfold assembleCities.
  eapply Permutation_Forall; [apply sortCities_perm|].
  induction Hall as [|[c d] rest (r & Hrej & ->) _ IH]; [constructor|].
  cbn [omap list_omap]. unfold enrich at 1.
  destruct d as [v|]; [|exact IH].
  destruct (truthy_cached (Some v)) eqn:Ht; [|exact IH].
  constructor; [|exact IH].
  destruct (normalized_of_presentable r Hrej) as (Hn & Hp1 & Hp2).
  unfold presentable. cbn [e_name e_description e_pollution]. auto.
Qed.

(** What a 200 response carries: the parsed page and limit, a total that
    counts the cities listed, and only cities with a name, a truthy
    description and a pollution that is a non-negative Number, whatever
    the upstream data and the lookups were. *)
Theorem response_consistent env localeCompare resolveAll query w body w' :
  getPollutedCities env localeCompare resolveAll query w = (Normal (Ok body), w') ->
  pagination query = Normal (Some (b_page body, b_limit body)) /\
  b_total body = length (b_cities body) /\
  Forall presentable (b_cities body).
Proof.
  unfold getPollutedCities, try_catch, pagination, lift_completion,
    mbind, M_bind, Completion_bind, mret, M_ret, Completion_ret.
  destruct (parseInt (or_default (JsNum "1") (q_page query))) as [[p|]|ex];
    try discriminate;
    destruct (parseInt (or_default (JsNum "10") (q_limit query)))
      as [[l|]|ex']; try discriminate.
  destruct ((p <? 1) || (l <? 1)) eqn:Hbad; [discriminate|].
  apply orb_false_iff in Hbad as [Hp Hl]. apply Z.ltb_ge in Hp, Hl.
  replace ((1 <=? p) && (1 <=? l)) with true
    by (symmetry; apply andb_true_iff; split; apply Z.leb_le; lia).
  destruct (loadPollutionData env (q_country query) p l w)
    as [[pollutionData|e] w1]; [|discriminate].
  destruct pollutionData as [s|d t|tok ex|data];
    try (intros [= <- _]; repeat split; constructor).
  destruct (validCities (r_cities data)) as [valid|ex] eqn:Hvalid;
    [|discriminate].
  apply validCities_run in Hvalid. subst valid.
  destruct (resolveAll _ w1) as [[descriptions|e] w2]; [|discriminate].
  intros [= <- _]. cbn [b_page b_limit b_total b_cities].
  repeat split. apply assembled_presentable.
  apply Forall_forall. intros [c d] Hin.
  apply elem_of_zip_l in Hin. apply list_elem_of_omap in Hin.
  destruct Hin as (cityEntry & _ & Hc).
  apply spec_normalize_Some in Hc as [Hrej ->]. eauto.
Qed.

Lemma response_consistent_witness :
  pagination plain_query = Normal (Some (b_page plain_body, b_limit plain_body)) /\
  b_total plain_body = length (b_cities plain_body) /\
  Forall presentable (b_cities plain_body).
Proof.
  apply (response_consistent serving_env codeUnitCompare resolve_described
           plain_query empty_world plain_body plain_world).
  reflexivity.
Defined.

Lemma getAuthToken_other_keys env w r w' key :
  getAuthToken env w = (r, w') ->
  key <> AUTH_TOKEN_CACHE_KEY -> store w' !! key = store w !! key.
Proof.
  intros Hrun Hkey.
  destruct (cached_token (cache_lookup w AUTH_TOKEN_CACHE_KEY) (now w))
    as [token|] eqn:Hc.
  - rewrite (getAuthToken_hit _ _ _ Hc) in Hrun. now injection Hrun as _ <-.
  - rewrite getAuthToken_miss in Hrun by exact Hc. unfold try_catch in Hrun.
    destruct (login env w) as [[tok|e] w1] eqn:Hlogin.
    + injection Hrun as _ <-.
      destruct (login_effects _ _ _ _ Hlogin) as (_ & _ & Hst). auto.
    + destruct (login_failure_throws e w1) as [m Hm]. rewrite Hm in Hrun.
      injection Hrun as _ <-.
      destruct (login_effects _ _ _ _ Hlogin) as (_ & _ & Hst). auto.
Qed.

Lemma fetchPollutionData_other_keys
    env countryCode page_arg limit_arg w r w' key :
  fetchPollutionData env countryCode page_arg limit_arg w = (r, w') ->
  key <> AUTH_TOKEN_CACHE_KEY -> store w' !! key = store w !! key.
Proof.
  rewrite fetchPollutionData_args. intros Hrun Hkey.
  destruct (getAuthToken env w) as [[token|e] w1] eqn:Hauth.
  - rewrite (fetchPollutionData_after_auth _ _ _ _ _ _ _ Hauth) in Hrun.
    cbv zeta in Hrun.
    destruct (promise_all _) as [rs|e]; injection Hrun as _ <-;
      cbn [after_requests store];
      eapply getAuthToken_other_keys; eauto.
  - rewrite (fetchPollutionData_auth_failed _ _ _ _ _ _ _ Hauth) in Hrun.
    injection Hrun as _ <-. eapply getAuthToken_other_keys; eauto.
Qed.

Lemma pollution_key_not_token ctry page limit :
  pollutionCacheKey ctry page limit <> AUTH_TOKEN_CACHE_KEY.
Proof. discriminate. Qed.

(** When the pollution service fails, the handler hands its error to
    [next] and caches nothing for the request, so the next one tries
    again. *)
Theorem upstream_failure_passed_on
    env localeCompare resolveAll query p l w e w1 :
  pagination query = Normal (Some (p, l)) ->
  truthy_cached (cache_lookup w (pollutionCacheKey (q_country query) p l))
    = false ->
  fetchPollutionData env (q_country query) (Some p) (Some l) w = (Throw e, w1) ->
  getPollutedCities env localeCompare resolveAll query w
    = (Normal (Failed e), w1) /\
  store w1 !! pollutionCacheKey (q_country query) p l
    = store w !! pollutionCacheKey (q_country query) p l.
Proof.
  intros Hpag Hmiss Hfetch.
  apply pagination_Some in Hpag as (Hp & Hl & Hok). split.
  - unfold getPollutedCities, try_catch, lift_completion, mbind, M_bind.
    rewrite Hp, Hl, Hok.
    rewrite (loadPollutionData_miss _ _ _ _ _ Hmiss), Hfetch. reflexivity.
  - eapply fetchPollutionData_other_keys; [exact Hfetch|].
    apply pollution_key_not_token.
Qed.

Lemma upstream_failure_passed_on_witness :
  getPollutedCities offline_env codeUnitCompare resolve_described plain_query
    empty_world
    = (Normal (Failed (Error MSG_FETCH_FAILED)),
       after_login offline_env empty_world) /\
  store (after_login offline_env empty_world)
    !! pollutionCacheKey (q_country plain_query) 1 10
    = store empty_world !! pollutionCacheKey (q_country plain_query) 1 10.
Proof.
  apply (upstream_failure_passed_on offline_env codeUnitCompare
           resolve_described plain_query 1 10 empty_world
           (Error MSG_FETCH_FAILED) (after_login offline_env empty_world)).
  - reflexivity.
  - reflexivity.
  - reflexivity.
Defined.

(** ** Description resolver: the acceptance policy and case *)

Lemma upper_lower c : toUpperChar (toLowerChar c) = toUpperChar c.
Proof. destruct c as [[] [] [] [] [] [] [] []]; reflexivity. Qed.

Lemma toLowerCase_idem s : toLowerCase (toLowerCase s) = toLowerCase s.
Proof.
  unfold toLowerCase. rewrite to_of_chars. f_equal.
  induction (to_chars s) as [|c l IH]; simpl; [reflexivity|].
  now rewrite lower_lower, IH.
Qed.

Lemma toUpperCase_toLowerCase s : toUpperCase (toLowerCase s) = toUpperCase s.
Proof.
  unfold toUpperCase, toLowerCase. rewrite to_of_chars. f_equal.
  induction (to_chars s) as [|c l IH]; simpl; [reflexivity|].
  now rewrite upper_lower, IH.
Qed.

(** The acceptance policy does not see the case of the ASCII letters in
    any of its five arguments: names, country, description and title are
    compared in lower case throughout. *)
Theorem acceptance_ignores_case
    originalName countryName lookupName description title :
  acceptsDescription originalName countryName lookupName description title
  = acceptsDescription (toLowerCase originalName) (toLowerCase countryName)
      (toLowerCase lookupName) (toLowerCase description) (toLowerCase title).
Proof.
  unfold acceptsDescription, isCountryRelevant, isContentRelevantToQuery.
  now rewrite !toLowerCase_idem, toUpperCase_toLowerCase.
Qed.
